(** * A to-do list kept in [localStorage]: model of [src/tasks.ts]

    The script keeps one array [tasks] of [Task] objects, mirrors it into the
    list element of the page and writes it to [localStorage] under the key
    ['tasks'] after every change.  The model below follows the script
    function by function:

    - strings are JavaScript strings, that is sequences of UTF-16 code units;
    - [Task] objects live in an object store and the array, the rendered rows
      and the listeners hold references into it, as in the script, where a
      checkbox listener flips the very object the array holds;
    - the three [document.querySelector] results may each be [null];
    - [localStorage.setItem] sets the value or throws QuotaExceededError;
      when it can set it is the browser's decision, a parameter here.  An
      exception leaves a listener with the state as it then is, and the page
      goes on;
    - what each row displays (its text and its checkbox) is kept beside the
      script's state, in a [Page];
    - [JSON.stringify] and [JSON.parse] are the platform's, modelled after
      ECMA-262 (QuoteJSONString) and the JSON grammar of ECMA-404. *)

From Stdlib Require Import NArith ZArith Ascii String.
From stdpp Require Import base option list gmap.

Set Default Proof Using "Type".
Local Open Scope N_scope.

(** ** JavaScript strings *)

(** A string value is a sequence of 16-bit code units. *)
Abbreviation jsstring := (list N).

(** [js "abc"] is the string whose code units are the characters of the
    literal (all literals of the script are ASCII). *)
Fixpoint js (s : string) : jsstring :=
  match s with
  | EmptyString => []
  | String a r => N_of_ascii a :: js r
  end.

(** [jsq] reads a literal in which an apostrophe stands for the double
    quote (code unit 34), which keeps JSON texts readable. *)
Definition jsq (s : string) : jsstring :=
  (fun c => if c =? 39 then 34 else c) <$> js s.

(** ToBoolean on a string: the empty string is the only falsy one. *)
Definition truthy (s : jsstring) : bool :=
  match s with
  | [] => false
  | _ :: _ => true
  end.

(** ** The [Task] type (lines 12-15) *)

Record Task : Type := mkTask {
  description : jsstring;
  isCompleted : bool;
}.

#[global] Instance Task_eq_dec : EqDecision Task.
Proof. solve_decision. Defined.

#[global] Instance Task_inhabited : Inhabited Task := populate (mkTask [] false).

(** ** JSON values *)

(** The value [JSON.parse] builds.  An object keeps its members in source
    order, repeated names included; [ownProperties] below turns them into the
    object's properties.  A number keeps its lexeme: its value as a double is
    not needed, no field of [Task] being a number. *)
#[local] Unset Elimination Schemes.
Inductive json : Type :=
  | JNull
  | JBool (b : bool)
  | JNumber (lexeme : jsstring)
  | JString (s : jsstring)
  | JArray (elements : list json)
  | JObject (members : list (jsstring * json)).
#[local] Set Elimination Schemes.

Module JSON.

(** *** [JSON.stringify] on a [Task[]] *)

Definition hexDigit (n : N) : N :=
  if n <? 10 then 48 + n else 87 + n.

(** UnicodeEscape: a backslash, [u] and four lowercase hexadecimal digits. *)
Definition unicodeEscape (c : N) : jsstring :=
  [92; 117; hexDigit (c / 4096 mod 16); hexDigit (c / 256 mod 16);
   hexDigit (c / 16 mod 16); hexDigit (c mod 16)].

Definition isLeadingSurrogate (c : N) : bool := (55296 <=? c) && (c <=? 56319).
Definition isTrailingSurrogate (c : N) : bool := (56320 <=? c) && (c <=? 57343).

(** One code unit that is not a surrogate: the two-character escapes of
    the table in QuoteJSONString, [\u00XX] for the other control
    characters, the unit itself otherwise. *)
Definition quoteCodeUnit (c : N) : jsstring :=
  if c =? 8 then [92; 98]
  else if c =? 9 then [92; 116]
  else if c =? 10 then [92; 110]
  else if c =? 12 then [92; 102]
  else if c =? 13 then [92; 114]
  else if c =? 34 then [92; 34]
  else if c =? 92 then [92; 92]
  else if c <? 32 then unicodeEscape c
  else [c].

(** The characters between the quotes.  A leading surrogate followed by a
    trailing one is a code point and is copied; a lone surrogate is
    escaped. *)
Fixpoint quoteChars (s : jsstring) : jsstring :=
  match s with
  | [] => []
  | c :: r =>
      if isLeadingSurrogate c then
        match r with
        | d :: r' =>
            if isTrailingSurrogate d then c :: d :: quoteChars r'
            else unicodeEscape c ++ quoteChars r
        | [] => unicodeEscape c
        end
      else if isTrailingSurrogate c then unicodeEscape c ++ quoteChars r
      else quoteCodeUnit c ++ quoteChars r
  end.

Definition quote (s : jsstring) : jsstring := 34 :: quoteChars s ++ [34].

Definition stringifyBool (b : bool) : jsstring :=
  if b then js "true" else js "false".

(** SerializeJSONObject on an object with the own properties
    [description] and [isCompleted], in the order of the literal of
    lines 42-45 (no gap, no indentation). *)
Definition stringifyTask (t : Task) : jsstring :=
  js "{" ++ quote (js "description") ++ js ":" ++ quote (description t)
    ++ js "," ++ quote (js "isCompleted") ++ js ":" ++ stringifyBool (isCompleted t)
    ++ js "}".

(** The elements of an array, separated by commas. *)
Fixpoint stringifyElements (ts : list Task) : jsstring :=
  match ts with
  | [] => []
  | [t] => stringifyTask t
  | t :: r => stringifyTask t ++ js "," ++ stringifyElements r
  end.

Definition stringify (ts : list Task) : jsstring :=
  js "[" ++ stringifyElements ts ++ js "]".

(** *** [JSON.parse] *)

(** The parser reads the text one code unit at a time, with a stack of the
    arrays and objects that are still open. *)
Inductive frame : Type :=
  | FArr (els : list json)                          (* elements so far, last first *)
  | FKey (ms : list (jsstring * json))              (* members so far, last first *)
  | FVal (ms : list (jsstring * json)) (k : jsstring). (* ... and the name read *)

Inductive numstate : Type :=
  | NSign | NZero | NInt | NDot | NFrac | NExp | NExpSign | NExpDigits.

Inductive mode : Type :=
  | MValue                       (* a value must start *)
  | MFirstElem                   (* after '[': a value or ']' *)
  | MFirstKey                    (* after '{': a name or '}' *)
  | MKey                         (* after ',' in an object: a name *)
  | MColon                       (* after a name: ':' *)
  | MAfter                       (* after a value: ',' or the closing bracket *)
  | MStr (acc : jsstring)        (* in a string; [acc] is reversed *)
  | MEsc (acc : jsstring)        (* after a backslash *)
  | MHex (acc : jsstring) (todo : nat) (v : N)  (* in the digits of \u *)
  | MLit (rest : jsstring) (v : json)           (* in true, false or null *)
  | MNum (ns : numstate) (acc : jsstring)       (* in a number *)
  | MEnd (v : json).             (* the text's value is complete *)

Record pstate : Type := PState { stack : list frame; md : mode }.

Definition isWS (c : N) : bool :=
  (c =? 9) || (c =? 10) || (c =? 13) || (c =? 32).

Definition isDigit (c : N) : bool := (48 <=? c) && (c <=? 57).

Definition hexVal (c : N) : option N :=
  if (48 <=? c) && (c <=? 57) then Some (c - 48)
  else if (97 <=? c) && (c <=? 102) then Some (c - 87)
  else if (65 <=? c) && (c <=? 70) then Some (c - 55)
  else None.

(** A value is complete: it is the text's value, the next element of the
    array on top of the stack, or the value of the pending member. *)
Definition deliver (v : json) (st : list frame) : option pstate :=
  match st with
  | [] => Some (PState [] (MEnd v))
  | FArr els :: st' => Some (PState (FArr (v :: els) :: st') MAfter)
  | FVal ms k :: st' => Some (PState (FKey ((k, v) :: ms) :: st') MAfter)
  | FKey _ :: _ => None
  end.

(** A string is complete: a member name when an object waits for one. *)
Definition deliverString (s : jsstring) (st : list frame) : option pstate :=
  match st with
  | FKey ms :: st' => Some (PState (FVal ms s :: st') MColon)
  | _ => deliver (JString s) st
  end.

Definition startValue (first : bool) (st : list frame) (c : N) : option pstate :=
  if isWS c then Some (PState st (if first then MFirstElem else MValue))
  else if c =? 123 then Some (PState (FKey [] :: st) MFirstKey)
  else if c =? 91 then Some (PState (FArr [] :: st) MFirstElem)
  else if c =? 34 then Some (PState st (MStr []))
  else if c =? 45 then Some (PState st (MNum NSign [c]))
  else if c =? 48 then Some (PState st (MNum NZero [c]))
  else if isDigit c then Some (PState st (MNum NInt [c]))
  else if c =? 116 then Some (PState st (MLit (js "rue") (JBool true)))
  else if c =? 102 then Some (PState st (MLit (js "alse") (JBool false)))
  else if c =? 110 then Some (PState st (MLit (js "ull") JNull))
  else if first && (c =? 93) then
    match st with
    | FArr [] :: st' => deliver (JArray []) st'
    | _ => None
    end
  else None.

Definition unescape (c : N) : option N :=
  if c =? 34 then Some 34
  else if c =? 92 then Some 92
  else if c =? 47 then Some 47
  else if c =? 98 then Some 8
  else if c =? 102 then Some 12
  else if c =? 110 then Some 10
  else if c =? 114 then Some 13
  else if c =? 116 then Some 9
  else None.

Definition numStep (ns : numstate) (c : N) : option numstate :=
  match ns with
  | NSign => if c =? 48 then Some NZero else if isDigit c then Some NInt else None
  | NZero =>
      if c =? 46 then Some NDot
      else if (c =? 101) || (c =? 69) then Some NExp else None
  | NInt =>
      if isDigit c then Some NInt
      else if c =? 46 then Some NDot
      else if (c =? 101) || (c =? 69) then Some NExp else None
  | NDot => if isDigit c then Some NFrac else None
  | NFrac =>
      if isDigit c then Some NFrac
      else if (c =? 101) || (c =? 69) then Some NExp else None
  | NExp =>
      if (c =? 43) || (c =? 45) then Some NExpSign
      else if isDigit c then Some NExpDigits else None
  | NExpSign => if isDigit c then Some NExpDigits else None
  | NExpDigits => if isDigit c then Some NExpDigits else None
  end.

Definition numAccepting (ns : numstate) : bool :=
  match ns with
  | NZero | NInt | NFrac | NExpDigits => true
  | NSign | NDot | NExp | NExpSign => false
  end.

(** One code unit, in every mode but the one of numbers. *)
Definition step0 (p : pstate) (c : N) : option pstate :=
  let st := stack p in
  match md p with
  | MValue => startValue false st c
  | MFirstElem => startValue true st c
  | MFirstKey =>
      if isWS c then Some p
      else if c =? 34 then Some (PState st (MStr []))
      else if c =? 125 then
        match st with
        | FKey [] :: st' => deliver (JObject []) st'
        | _ => None
        end
      else None
  | MKey =>
      if isWS c then Some p
      else if c =? 34 then Some (PState st (MStr []))
      else None
  | MColon =>
      if isWS c then Some p
      else if c =? 58 then Some (PState st MValue)
      else None
  | MAfter =>
      if isWS c then Some p
      else
        match st with
        | FArr els :: st' =>
            if c =? 44 then Some (PState st MValue)
            else if c =? 93 then deliver (JArray (rev els)) st'
            else None
        | FKey ms :: st' =>
            if c =? 44 then Some (PState st MKey)
            else if c =? 125 then deliver (JObject (rev ms)) st'
            else None
        | _ => None
        end
  | MStr acc =>
      if c =? 34 then deliverString (rev acc) st
      else if c =? 92 then Some (PState st (MEsc acc))
      else if c <? 32 then None
      else Some (PState st (MStr (c :: acc)))
  | MEsc acc =>
      if c =? 117 then Some (PState st (MHex acc 4 0))
      else
        match unescape c with
        | Some u => Some (PState st (MStr (u :: acc)))
        | None => None
        end
  | MHex acc todo v =>
      match hexVal c with
      | Some d =>
          match todo with
          | 1%nat => Some (PState st (MStr ((v * 16 + d) :: acc)))
          | _ => Some (PState st (MHex acc (pred todo) (v * 16 + d)))
          end
      | None => None
      end
  | MLit rest v =>
      match rest with
      | x :: rest' =>
          if c =? x then
            match rest' with
            | [] => deliver v st
            | _ :: _ => Some (PState st (MLit rest' v))
            end
          else None
      | [] => None
      end
  | MNum _ _ => None
  | MEnd v => if isWS c then Some p else None
  end.

(** One code unit.  A number ends at the first unit that cannot continue
    it; that unit is then read after the number. *)
Definition step (p : pstate) (c : N) : option pstate :=
  match md p with
  | MNum ns acc =>
      match numStep ns c with
      | Some ns' => Some (PState (stack p) (MNum ns' (c :: acc)))
      | None =>
          if numAccepting ns then
            match deliver (JNumber (rev acc)) (stack p) with
            | Some p' => step0 p' c
            | None => None
            end
          else None
      end
  | _ => step0 p c
  end.

Fixpoint run (s : jsstring) (p : pstate) : option pstate :=
  match s with
  | [] => Some p
  | c :: r =>
      match step p c with
      | Some p' => run r p'
      | None => None
      end
  end.

(** The end of the text: a value must be complete and nothing open. *)
Definition finish (p : pstate) : option json :=
  match md p, stack p with
  | MEnd v, [] => Some v
  | MNum ns acc, [] => if numAccepting ns then Some (JNumber (rev acc)) else None
  | _, _ => None
  end.

(** [parse s] is [None] when [JSON.parse] throws a SyntaxError. *)
Definition parse (s : jsstring) : option json :=
  match run s (PState [] MValue) with
  | Some p => finish p
  | None => None
  end.

End JSON.


(** ** Property access on a decoded value *)

(** CreateDataProperty, as [JSON.parse] applies it to the members of an
    object in source order: a repeated name keeps its first position and
    takes the last value.  (Names that are array indices would be listed
    first; no property of a [Task] is one.) *)
Fixpoint defineProperty (k : jsstring) (v : json) (props : list (jsstring * json))
  : list (jsstring * json) :=
  match props with
  | [] => [(k, v)]
  | (k', v') :: r =>
      if decide (k' = k) then (k, v) :: r else (k', v') :: defineProperty k v r
  end.

Definition ownProperties (members : list (jsstring * json)) : list (jsstring * json) :=
  fold_left (fun props m => defineProperty m.1 m.2 props) members [].

(** The decoded values the type [Task] stands for: objects whose own
    properties are a string [description] and a boolean [isCompleted], in
    the order of the literal of lines 42-45, which is also the order in
    which [JSON.stringify] writes them back. *)
Definition asTask (v : json) : option Task :=
  match v with
  | JObject members =>
      match ownProperties members with
      | [(k1, JString d); (k2, JBool b)] =>
          if decide (k1 = js "description" ∧ k2 = js "isCompleted")
          then Some (mkTask d b) else None
      | _ => None
      end
  | _ => None
  end.

Definition jsonOfTask (t : Task) : json :=
  JObject [(js "description", JString (description t));
           (js "isCompleted", JBool (isCompleted t))].

(** ** The state of the page *)

(** A reference to a [Task] object: its index in the object store. *)
Abbreviation ref := nat.

(** What [document.querySelector] found (lines 4-7): [false] is [null]. *)
Record Dom : Type := mkDom {
  taskForm : bool;
  formInput : bool;
  taskListElement : bool;
}.

Record State : Type := mkState {
  heap : list Task;                       (* the Task objects allocated so far *)
  tasks : list ref;                       (* the array [tasks] *)
  localStorage : gmap jsstring jsstring;  (* window.localStorage *)
  inputValue : jsstring;                  (* formInput.value *)
  listItems : list ref;                   (* the <li> children of the list, each with
                                             the task its listeners captured *)
  alerts : list jsstring;                 (* the alerts shown, oldest first *)
  setItemCalls : nat;                     (* calls of localStorage.setItem *)
  created : nat;                          (* <li> elements created by renderTask *)
}.

(** The array as JavaScript reads it: each reference followed to its object. *)
Definition taskValues (s : State) : list Task :=
  (fun r => heap s !!! r) <$> tasks s.

Inductive error : Type := SyntaxError | TypeError | QuotaExceededError.

Inductive completion (A : Type) : Type :=
  | Normal (a : A)
  | Throw (e : error).
Arguments Normal {A} a.
Arguments Throw {A} e.

(** Code that reads and writes the state and may throw.  What was written
    before an exception stays written: the state comes back in both cases. *)
Definition M (A : Type) : Type := State → completion A * State.

#[global] Instance M_ret : MRet M := fun A a s => (Normal a, s).
#[global] Instance M_bind : MBind M := fun A B f m s =>
  match m s with
  | (Normal a, s') => f a s'
  | (Throw e, s') => (Throw e, s')
  end.

Definition get : M State := fun s => (Normal s, s).
Definition put (s : State) : M unit := fun _ => (Normal tt, s).
Definition throw {A} (e : error) : M A := fun s => (Throw e, s).

(** [array.forEach(f)] *)
Fixpoint forEach (f : ref → M unit) (l : list ref) : M unit :=
  match l with
  | [] => mret tt
  | x :: r => f x ;; forEach f r
  end.

(** [array.findIndex(p)]: the first index whose element satisfies [p],
    [-1] when there is none. *)
Fixpoint findIndex {A} (p : A → bool) (l : list A) : Z :=
  match l with
  | [] => (-1)%Z
  | x :: r =>
      if p x then 0%Z
      else let i := findIndex p r in if (i =? -1)%Z then (-1)%Z else (i + 1)%Z
  end.

(** [array.splice(start, 1)]: a negative [start] counts from the end, and
    nothing is removed at or past the end. *)
Definition splice1 {A} (start : Z) (l : list A) : list A :=
  let len := Z.of_nat (length l) in
  let from := if (start <? 0)%Z then Z.max (len + start) 0 else Z.min start len in
  delete (Z.to_nat from) l.

(** When [setItem(key, value)] can set the value in a storage: the
    browser's decision (its quota, its settings). *)
Abbreviation policy := (gmap jsstring jsstring → jsstring → jsstring → bool).

(** ** The script *)

(** [loadTasks] (lines 26-31).  [getItem] gives [null] for an absent key;
    [null] and the empty string are falsy. *)
Definition loadTasks (storage : gmap jsstring jsstring) : completion json :=
  match storage !! js "tasks" with
  | Some storedTasks =>
      if truthy storedTasks then
        match JSON.parse storedTasks with
        | Some v => Normal v
        | None => Throw SyntaxError
        end
      else Normal (JArray [])
  | None => Normal (JArray [])
  end.

Section Script.

Variable dom : Dom.
Variable canStore : policy.

(** [localStorage.setItem(key, value)]: the value is set, or nothing is and
    QuotaExceededError is thrown. *)
Definition setItem (key value : jsstring) : M unit :=
  s ← get;
  if canStore (localStorage s) key value then
    put (mkState (heap s) (tasks s) (<[key := value]> (localStorage s))
           (inputValue s) (listItems s) (alerts s) (S (setItemCalls s)) (created s))
  else
    put (mkState (heap s) (tasks s) (localStorage s)
           (inputValue s) (listItems s) (alerts s) (S (setItemCalls s)) (created s)) ;;
    throw QuotaExceededError.

(** [updateStorage] (lines 139-141) *)
Definition updateStorage : M unit :=
  s ← get;
  setItem (js "tasks") (JSON.stringify (taskValues s)).

(** [addTask] (lines 61-64): [tasks.push(task)]; the [console.log] leaves
    the state alone. *)
Definition addTask (task : ref) : M unit :=
  s ← get;
  put (mkState (heap s) (tasks s ++ [task]) (localStorage s) (inputValue s)
         (listItems s) (alerts s) (setItemCalls s) (created s)).

(** [renderTask] (lines 68-112): a new <li> whose two listeners capture
    [task]; it becomes the last child of the list when there is a list
    ([taskListElement?.appendChild]). *)
Definition renderTask (task : ref) : M unit :=
  s ← get;
  put (mkState (heap s) (tasks s) (localStorage s) (inputValue s)
         (if taskListElement dom then listItems s ++ [task] else listItems s)
         (alerts s) (setItemCalls s) (S (created s))).

(** The [change] listener of a checkbox (lines 91-95) *)
Definition onChange (task : ref) : M unit :=
  s ← get;
  let t := heap s !!! task in
  put (mkState (<[task := mkTask (description t) (negb (isCompleted t))]> (heap s))
         (tasks s) (localStorage s) (inputValue s) (listItems s) (alerts s)
         (setItemCalls s) (created s)) ;;
  updateStorage.

(** [taskListElement.innerHTML = ''] *)
Definition clearList : M unit :=
  if taskListElement dom then
    s ← get;
    put (mkState (heap s) (tasks s) (localStorage s) (inputValue s) []
           (alerts s) (setItemCalls s) (created s))
  else throw TypeError.

(** [deleteTask] (lines 116-135) *)
Definition deleteTask (taskToDelete : ref) : M unit :=
  s ← get;
  let target := heap s !!! taskToDelete in
  let taskIndex :=
    findIndex (fun task =>
                 bool_decide (description task = description target)
                 && bool_decide (isCompleted task = isCompleted target))
              (taskValues s) in
  if negb (taskIndex =? -1)%Z then
    put (mkState (heap s) (splice1 taskIndex (tasks s)) (localStorage s)
           (inputValue s) (listItems s) (alerts s) (setItemCalls s) (created s)) ;;
    updateStorage ;;
    if taskListElement dom then
      clearList ;;
      s' ← get;
      forEach renderTask (tasks s')
    else mret tt
  else mret tt.

(** The [click] listener of a delete button (lines 103-105) *)
Definition onClick (task : ref) : M unit := deleteTask task.

(** [formInput?.value]: [None] is [undefined]. *)
Definition readInput : M (option jsstring) :=
  s ← get;
  mret (if formInput dom then Some (inputValue s) else None).

(** [formInput.value = v], a TypeError on [null]. *)
Definition writeInput (v : jsstring) : M unit :=
  if formInput dom then
    s ← get;
    put (mkState (heap s) (tasks s) (localStorage s) v (listItems s)
           (alerts s) (setItemCalls s) (created s))
  else throw TypeError.

Definition alert (message : jsstring) : M unit :=
  s ← get;
  put (mkState (heap s) (tasks s) (localStorage s) (inputValue s) (listItems s)
         (alerts s ++ [message]) (setItemCalls s) (created s)).

(** The object literal of lines 42-45: a new object in the store. *)
Definition newTask (taskDescription : jsstring) : M ref :=
  s ← get;
  put (mkState (heap s ++ [mkTask taskDescription false]) (tasks s)
         (localStorage s) (inputValue s) (listItems s) (alerts s)
         (setItemCalls s) (created s)) ;;
  mret (length (heap s)).

(** The body of [if (taskDescription)] (lines 42-53) *)
Definition submitTask (taskDescription : jsstring) : M unit :=
  task ← newTask taskDescription;
  addTask task ;;
  renderTask task ;;
  updateStorage ;;
  writeInput [].

(** The [submit] listener (lines 35-56) *)
Definition onSubmit : M unit :=
  taskDescription ← readInput;
  match taskDescription with
  | Some d =>
      if truthy d then submitTask d
      else alert (js "Please enter a task description")
  | None => alert (js "Please enter a task description")
  end.

(** What the user can do.  Rows are counted from 0, top to bottom. *)
Inductive Event : Type :=
  | Input (text : jsstring)   (* edits the text field *)
  | Submit                    (* submits the form *)
  | Change (row : nat)        (* ticks the checkbox of a row *)
  | Click (row : nat).        (* presses the delete button of a row *)

(** An event runs the listener of its target; without the target (no
    form, since [taskForm?.addEventListener] registered nothing, or no such
    row) nothing runs. *)
Definition dispatch (e : Event) : M unit :=
  match e with
  | Input text => if formInput dom then writeInput text else mret tt
  | Submit => if taskForm dom then onSubmit else mret tt
  | Change row =>
      s ← get;
      match listItems s !! row with
      | Some task => onChange task
      | None => mret tt
      end
  | Click row =>
      s ← get;
      match listItems s !! row with
      | Some task => onClick task
      | None => mret tt
      end
  end.

(** Events one after the other.  An exception a listener does not catch is
    reported and the page goes on, in the state the listener left: the run
    gives the exceptions, oldest first, and the last state. *)
Fixpoint run (es : list Event) (s : State) : list error * State :=
  match es with
  | [] => ([], s)
  | e :: r =>
      match dispatch e s with
      | (Normal _, s') => run r s'
      | (Throw x, s') => let (errors, s'') := run r s' in (x :: errors, s'')
      end
  end.

(** Lines 19-22: the array is what [loadTasks] returned and each of its
    elements is rendered.  [forEach] on a value that is not an array is a
    TypeError.  [None] when the array holds a value that is not a [Task]:
    the script's types assume there is none (comment of line 29).  An
    exception here stops the script before any listener is registered. *)
Definition startup (storage : gmap jsstring jsstring) : option (completion State) :=
  match loadTasks storage with
  | Throw e => Some (Throw e)
  | Normal (JArray elements) =>
      match mapM asTask elements with
      | Some ts =>
          let s0 := mkState ts (seq 0 (length ts)) storage [] [] [] 0 0 in
          Some (match forEach renderTask (tasks s0) s0 with
                | (Normal _, s) => Normal s
                | (Throw e, _) => Throw e
                end)
      | None => None
      end
  | Normal _ => Some (Throw TypeError)
  end.

End Script.

(** ** Notions used in the statements *)

(** The decoded array as a [Task[]], when it is one. *)
Definition asTasks (v : json) : option (list Task) :=
  match v with
  | JArray elements => mapM asTask elements
  | _ => None
  end.

(** The stored snapshot is the serialization of the array. *)
Definition persisted (s : State) : Prop :=
  localStorage s !! js "tasks" = Some (JSON.stringify (taskValues s)).

(** The comparison of [deleteTask]: same description, same flag. *)
Definition sameTask (target t : Task) : Prop :=
  description t = description target ∧ isCompleted t = isCompleted target.

(** The same comparison as the arrow function of lines 119-121 writes it. *)
Definition sameTaskb (target t : Task) : bool :=
  bool_decide (description t = description target)
  && bool_decide (isCompleted t = isCompleted target).

(** Every reference of the array is to an allocated object. *)
Definition refsValid (s : State) : Prop :=
  Forall (fun r => (r < length (heap s))%nat) (tasks s).

(** The array holds each object once.  With a list element, every element
    of the array has its row, in the array's order, and no two rows hold the
    same object; rows of tasks that went since the list was last rendered
    may remain.  Without a list element there is no row. *)
Definition consistent (dom : Dom) (s : State) : Prop :=
  refsValid s ∧ NoDup (tasks s)
  ∧ if taskListElement dom
    then sublist (tasks s) (listItems s) ∧ NoDup (listItems s)
         ∧ Forall (fun r => (r < length (heap s))%nat) (listItems s)
    else listItems s = [].

(** The rows are the elements of the array (no row without a list
    element). *)
Definition rowsCurrent (dom : Dom) (s : State) : Prop :=
  listItems s = if taskListElement dom then tasks s else [].

(** The states of the page: after the script has run on some stored data,
    and after any events since, whatever exceptions they ended in. *)
Definition reachable (dom : Dom) (canStore : policy) (s : State) : Prop :=
  ∃ storage s0 es,
    startup dom storage = Some (Normal s0) ∧ (run dom canStore es s0).2 = s.


(** A task with its flag flipped. *)
Definition toggled (t : Task) : Task :=
  mkTask (description t) (negb (isCompleted t)).

(** WhiteSpace and LineTerminator code units, as [String.prototype.trim]
    removes them. *)
Definition isWhiteSpace (c : N) : bool :=
  bool_decide (c ∈ [9; 10; 11; 12; 13; 32; 160; 5760; 8232; 8233; 8239; 8287;
                    12288; 65279])
  || ((8192 <=? c) && (c <=? 8202)).

Definition whitespaceOnly (s : jsstring) : bool := forallb isWhiteSpace s.

(** What [setItem('tasks', value)] ends in, and the storage it leaves. *)
Definition setOutcome (canStore : policy) (storage : gmap jsstring jsstring)
    (value : jsstring) : completion unit :=
  if canStore storage (js "tasks") value then Normal tt else Throw QuotaExceededError.

Definition afterSet (canStore : policy) (storage : gmap jsstring jsstring)
    (value : jsstring) : gmap jsstring jsstring :=
  if canStore storage (js "tasks") value then <[js "tasks" := value]> storage
  else storage.

(** Two storage policies: one that never refuses, and a quota on the code
    units of all keys and values together. *)
Definition unlimited : policy := fun _ _ _ => true.

Definition storeSize (storage : gmap jsstring jsstring) : nat :=
  map_fold (fun k v n => (length k + length v + n)%nat) 0%nat storage.

Definition quota (limit : nat) : policy := fun storage key value =>
  bool_decide (storeSize (<[key := value]> storage) ≤ limit)%nat.

(** ** What the rows show *)

(** The script above says which task each row's listeners hold.  What a row
    displays is fixed when [renderTask] builds it: the text of the <span> is
    the task's description at that time (line 73), the checkbox is ticked as
    the task's flag is at that time (line 86).  Afterwards only the browser
    changes the display, by flipping a checkbox the user ticks. *)
Record Row : Type := mkRow {
  rowTask : ref;            (* the task the row's listeners captured *)
  textContent : jsstring;   (* the text of the row's <span> *)
  checked : bool;           (* the state of the row's checkbox *)
}.

(** The state of the script with the <li> children of the list as they are
    displayed. *)
Record Page : Type := mkPage {
  script : State;
  children : list Row;
}.

Definition PM (A : Type) : Type := Page → completion A * Page.

#[global] Instance PM_ret : MRet PM := fun A a p => (Normal a, p).
#[global] Instance PM_bind : MBind PM := fun A B f m p =>
  match m p with
  | (Normal a, p') => f a p'
  | (Throw e, p') => (Throw e, p')
  end.

Definition pageGet : PM Page := fun p => (Normal p, p).

(** Code of the script that leaves the display alone. *)
Definition liftM {A} (m : M A) : PM A := fun p =>
  match m (script p) with
  | (outcome, s') => (outcome, mkPage s' (children p))
  end.

(** A change of the list's children. *)
Definition setChildren (f : list Row → list Row) : PM unit := fun p =>
  (Normal tt, mkPage (script p) (f (children p))).

Fixpoint pageForEach (f : ref → PM unit) (l : list ref) : PM unit :=
  match l with
  | [] => mret tt
  | x :: r => f x ;; pageForEach f r
  end.

Section PageScript.

Variable dom : Dom.
Variable canStore : policy.

(** [renderTask] (lines 68-112), with the row it builds. *)
Definition pageRenderTask (task : ref) : PM unit :=
  p ← pageGet;
  let t := heap (script p) !!! task in
  liftM (renderTask dom task) ;;
  if taskListElement dom
  then setChildren (fun lis => lis ++ [mkRow task (description t) (isCompleted t)])
  else mret tt.

(** [taskListElement.innerHTML = ''] *)
Definition pageClearList : PM unit :=
  liftM (clearList dom) ;;
  setChildren (fun _ => []).

(** [deleteTask] (lines 116-135) *)
Definition pageDeleteTask (taskToDelete : ref) : PM unit :=
  p ← pageGet;
  let s := script p in
  let target := heap s !!! taskToDelete in
  let taskIndex :=
    findIndex (fun task =>
                 bool_decide (description task = description target)
                 && bool_decide (isCompleted task = isCompleted target))
              (taskValues s) in
  if negb (taskIndex =? -1)%Z then
    liftM (put (mkState (heap s) (splice1 taskIndex (tasks s)) (localStorage s)
                  (inputValue s) (listItems s) (alerts s) (setItemCalls s)
                  (created s))) ;;
    liftM (updateStorage canStore) ;;
    if taskListElement dom then
      pageClearList ;;
      p' ← pageGet;
      pageForEach pageRenderTask (tasks (script p'))
    else mret tt
  else mret tt.

(** The body of [if (taskDescription)] (lines 42-53) *)
Definition pageSubmitTask (taskDescription : jsstring) : PM unit :=
  task ← liftM (newTask taskDescription);
  liftM (addTask task) ;;
  pageRenderTask task ;;
  liftM (updateStorage canStore) ;;
  liftM (writeInput dom []).

(** The [submit] listener (lines 35-56) *)
Definition pageOnSubmit : PM unit :=
  taskDescription ← liftM (readInput dom);
  match taskDescription with
  | Some d =>
      if truthy d then pageSubmitTask d
      else liftM (alert (js "Please enter a task description"))
  | None => liftM (alert (js "Please enter a task description"))
  end.

(** The browser flips the checkbox the user ticks, before the [change]
    event. *)
Definition flipCheckbox (row : nat) : PM unit :=
  setChildren (alter (fun li => mkRow (rowTask li) (textContent li) (negb (checked li)))
                     row).

(** An event runs the listeners of the row it is on. *)
Definition pageDispatch (e : Event) : PM unit :=
  match e with
  | Input text => liftM (dispatch dom canStore (Input text))
  | Submit => if taskForm dom then pageOnSubmit else mret tt
  | Change row =>
      p ← pageGet;
      match children p !! row with
      | Some li => flipCheckbox row ;; liftM (onChange canStore (rowTask li))
      | None => mret tt
      end
  | Click row =>
      p ← pageGet;
      match children p !! row with
      | Some li => pageDeleteTask (rowTask li)
      | None => mret tt
      end
  end.

Fixpoint pageRun (es : list Event) (p : Page) : list error * Page :=
  match es with
  | [] => ([], p)
  | e :: r =>
      match pageDispatch e p with
      | (Normal _, p') => pageRun r p'
      | (Throw x, p') => let (errors, p'') := pageRun r p' in (x :: errors, p'')
      end
  end.

(** Lines 19-22, as [startup], with the rows built. *)
Definition pageStartup (storage : gmap jsstring jsstring) : option (completion Page) :=
  match loadTasks storage with
  | Throw e => Some (Throw e)
  | Normal (JArray elements) =>
      match mapM asTask elements with
      | Some ts =>
          let s0 := mkState ts (seq 0 (length ts)) storage [] [] [] 0 0 in
          Some (match pageForEach pageRenderTask (tasks s0) (mkPage s0 []) with
                | (Normal _, p) => Normal p
                | (Throw e, _) => Throw e
                end)
      | None => None
      end
  | Normal _ => Some (Throw TypeError)
  end.

End PageScript.

(** The row [renderTask] builds for a task as it is in a state. *)
Definition rowOf (s : State) (task : ref) : Row :=
  mkRow task (description (heap s !!! task)) (isCompleted (heap s !!! task)).

(** Every row displays its task as the task is now. *)
Definition inStep (p : Page) : Prop :=
  children p = rowOf (script p) <$> listItems (script p).

(** ** Example pages *)

(** A page with the form, the text field and the list. *)
Definition fullPage : Dom := mkDom true true true.

Definition keyTasks : jsstring := js "tasks".

(** One task in the array, shown in the list, and the same text typed again
    in the field. *)
Definition milkTyped : State :=
  mkState [mkTask (js "Buy milk") false] [0%nat]
    {[ keyTasks := jsq "[{'description':'Buy milk','isCompleted':false}]" ]}
    (js "Buy milk") [0%nat] [] 1 1.

(** A fresh page whose field holds three spaces. *)
Definition blankTyped : State :=
  mkState [] [] ∅ (js "   ") [] [] 0 0.

(** A fresh page, nothing typed. *)
Definition freshPage : State :=
  mkState [] [] ∅ [] [] [] 0 0.

(** An array of one task, and a second object that is not in the array. *)
Definition strayObject : State :=
  mkState [mkTask (js "A") false; mkTask (js "B") true] [0%nat] ∅ [] [0%nat] [] 0 1.

(** A storage that holds 60 code units: room for the snapshot of the one
    task of [milkTyped] (53 with the key), not for a second task. *)
Definition smallStore : policy := quota 60.

(** * Properties *)

(** ** [JSON.parse] reads back what [JSON.stringify] wrote *)

Module JSONFacts.
Import JSON.

Lemma run_app a b p : run (a ++ b) p = run a p ≫= run b.
Proof.
  revert p. induction a as [|c a IH]; intros p; simpl; [done|].
  destruct (step p c); simpl; [apply IH|done].
Qed.

Lemma run_cons c r p : run (c :: r) p = step p c ≫= run r.
Proof. simpl. by destruct (step p c). Qed.

Lemma hexVal_hexDigit n : n < 16 → hexVal (hexDigit n) = Some n.
Proof.
  intros Hn. unfold hexDigit, hexVal.
  destruct (N.ltb_spec n 10).
  - replace ((48 <=? 48 + n) && (48 + n <=? 57)) with true
      by (symmetry; apply andb_true_iff; split; apply N.leb_le; lia).
    f_equal. lia.
  - replace ((48 <=? 87 + n) && (87 + n <=? 57)) with false
      by (symmetry; apply andb_false_iff; right; apply N.leb_gt; lia).
    replace ((97 <=? 87 + n) && (87 + n <=? 102)) with true
      by (symmetry; apply andb_true_iff; split; apply N.leb_le; lia).
    f_equal. lia.
Qed.

Lemma hex4_value c :
  c < 65536 →
  (((0 * 16 + c / 4096 mod 16) * 16 + c / 256 mod 16) * 16 + c / 16 mod 16) * 16
    + c mod 16 = c.
Proof.
  intros Hc.
  assert (c / 4096 < 16) by (apply N.Div0.div_lt_upper_bound; lia).
  rewrite (N.mod_small (c / 4096) 16) by done.
  pose proof (N.div_mod' c 16) as H0.
  pose proof (N.div_mod' (c / 16) 16) as H1.
  pose proof (N.div_mod' (c / 256) 16) as H2.
  replace (c / 16 / 16) with (c / 256) in H1
    by (rewrite N.Div0.div_div; reflexivity).
  replace (c / 256 / 16) with (c / 4096) in H2
    by (rewrite N.Div0.div_div; reflexivity).
  lia.
Qed.

Lemma step_literal st acc c :
  c ≠ 34 → c ≠ 92 → 32 ≤ c →
  step (PState st (MStr acc)) c = Some (PState st (MStr (c :: acc))).
Proof.
  intros H34 H92 H32. unfold step, step0; simpl.
  destruct (N.eqb_spec c 34); [done|].
  destruct (N.eqb_spec c 92); [done|].
  destruct (N.ltb_spec c 32); [lia|done].
Qed.

Lemma step_hex st acc todo v n :
  n < 16 →
  step (PState st (MHex acc todo v)) (hexDigit n)
  = Some (PState st (match todo with
                     | 1%nat => MStr ((v * 16 + n) :: acc)
                     | _ => MHex acc (pred todo) (v * 16 + n)
                     end)).
Proof.
  intros Hn. unfold step, step0; simpl. rewrite hexVal_hexDigit by done.
  by destruct todo as [|[|?]].
Qed.

Lemma run_unicodeEscape c st acc rest :
  c < 65536 →
  run (unicodeEscape c ++ rest) (PState st (MStr acc))
  = run rest (PState st (MStr (c :: acc))).
Proof.
  intros Hc. unfold unicodeEscape. cbn [app]. rewrite run_cons.
  change (step (PState st (MStr acc)) 92) with (Some (PState st (MEsc acc))).
  cbn [mbind option_bind]. rewrite run_cons.
  change (step (PState st (MEsc acc)) 117) with (Some (PState st (MHex acc 4 0))).
  cbn [mbind option_bind].
  assert (∀ x, x mod 16 < 16) as Hm by (intros; apply N.mod_lt; lia).
  do 4 (rewrite run_cons, step_hex by apply Hm; cbn [mbind option_bind pred]).
  by rewrite hex4_value.
Qed.

Lemma run_literal c st acc rest :
  c ≠ 34 → c ≠ 92 → 32 ≤ c →
  run (c :: rest) (PState st (MStr acc)) = run rest (PState st (MStr (c :: acc))).
Proof. intros. by rewrite run_cons, step_literal. Qed.

Lemma run_quoteCodeUnit c st acc rest :
  run (quoteCodeUnit c ++ rest) (PState st (MStr acc))
  = run rest (PState st (MStr (c :: acc))).
Proof.
  unfold quoteCodeUnit.
  repeat (match goal with
          | |- context [N.eqb c ?k] => destruct (N.eqb_spec c k) as [->|?]
          end; [reflexivity|]).
  destruct (N.ltb_spec c 32).
  - apply run_unicodeEscape. lia.
  - by apply run_literal.
Qed.

Lemma surrogate_bounds c :
  isLeadingSurrogate c || isTrailingSurrogate c = true → 55296 ≤ c ∧ c ≤ 57343.
Proof.
  unfold isLeadingSurrogate, isTrailingSurrogate.
  rewrite orb_true_iff, !andb_true_iff, !N.leb_le. lia.
Qed.

(** The characters of a quoted string, up to the closing quote, are read
    back as the string. *)
Lemma run_quoteChars s st acc rest :
  run (quoteChars s ++ 34 :: rest) (PState st (MStr acc))
  = deliverString (rev acc ++ s) st ≫= run rest.
Proof.
  remember (length s) as n eqn:Hn. revert s Hn acc.
  induction n as [n IH] using lt_wf_ind. intros s Hn acc.
  destruct s as [|c r].
  - rewrite app_nil_r. cbn [quoteChars app]. by rewrite run_cons.
  - replace (rev acc ++ c :: r) with (rev (c :: acc) ++ r)
      by (simpl; by rewrite <- app_assoc).
    cbn [quoteChars].
    destruct (isLeadingSurrogate c) eqn:Hlead.
    + pose proof (surrogate_bounds c) as Hc. rewrite Hlead in Hc.
      specialize (Hc eq_refl).
      destruct r as [|d r'].
      * rewrite run_unicodeEscape by lia.
        change (34 :: rest) with (quoteChars [] ++ 34 :: rest).
        eapply IH; [|reflexivity]. simpl in *. lia.
      * destruct (isTrailingSurrogate d) eqn:Htrail.
        -- pose proof (surrogate_bounds d) as Hd. rewrite Htrail, orb_true_r in Hd.
           specialize (Hd eq_refl).
           cbn [app]. rewrite 2!run_literal by lia.
           replace (rev (c :: acc) ++ d :: r') with (rev (d :: c :: acc) ++ r')
             by (simpl; by rewrite <- !app_assoc).
           eapply IH; [|reflexivity]. simpl in *. lia.
        -- rewrite <- app_assoc, run_unicodeEscape by lia.
           eapply IH; [|reflexivity]. simpl in *. lia.
    + destruct (isTrailingSurrogate c) eqn:Htrail.
      * pose proof (surrogate_bounds c) as Hc. rewrite Htrail, orb_true_r in Hc.
        specialize (Hc eq_refl).
        rewrite <- app_assoc, run_unicodeEscape by lia.
        eapply IH; [|reflexivity]. simpl in *. lia.
      * rewrite <- app_assoc, run_quoteCodeUnit.
        eapply IH; [|reflexivity]. simpl in *. lia.
Qed.

Lemma stringifyTask_shape t rest :
  stringifyTask t ++ rest
  = jsq "{'description':'" ++ quoteChars (description t)
      ++ 34 :: jsq ",'isCompleted':" ++ stringifyBool (isCompleted t) ++ js "}" ++ rest.
Proof.
  unfold stringifyTask, quote. cbn [js app].
  repeat (rewrite <- ?app_assoc; cbn [app]; f_equal).
Qed.

(** A serialized task, where an element of an array may start, is read
    back as that task's object. *)
Lemma run_stringifyTask t (first : bool) els st rest :
  run (stringifyTask t ++ rest)
      (PState (FArr els :: st) (if first then MFirstElem else MValue))
  = run rest (PState (FArr (jsonOfTask t :: els) :: st) MAfter).
Proof.
  rewrite stringifyTask_shape, run_app.
  replace (run (jsq "{'description':'")
             (PState (FArr els :: st) (if first then MFirstElem else MValue)))
    with (Some (PState (FVal [] (js "description") :: FArr els :: st) (MStr [])))
    by (by destruct first).
  cbn [mbind option_bind]. rewrite run_quoteChars.
  cbn [rev app deliverString deliver mbind option_bind].
  destruct t as [d [|]]; reflexivity.
Qed.

Lemma run_stringifyElements ts (first : bool) els st rest :
  ts ≠ [] →
  run (stringifyElements ts ++ rest)
      (PState (FArr els :: st) (if first then MFirstElem else MValue))
  = run rest (PState (FArr (rev (jsonOfTask <$> ts) ++ els) :: st) MAfter).
Proof.
  intros Hne. revert first els.
  induction ts as [|t ts IH]; intros first els; [done|].
  destruct ts as [|t' ts].
  - cbn [stringifyElements]. by rewrite run_stringifyTask.
  - change (stringifyElements (t :: t' :: ts))
      with (stringifyTask t ++ js "," ++ stringifyElements (t' :: ts)).
    rewrite <- !app_assoc, run_stringifyTask.
    change (js "," ++ ?l) with (44 :: l). rewrite run_cons.
    change (step (PState (FArr (jsonOfTask t :: els) :: st) MAfter) 44)
      with (Some (PState (FArr (jsonOfTask t :: els) :: st) MValue)).
    cbn [mbind option_bind].
    rewrite (IH ltac:(done) false).
    rewrite (fmap_cons _ t). cbn [rev]. by rewrite <- app_assoc.
Qed.

(** [JSON.parse(JSON.stringify(tasks))] is an array of one object per task. *)
Lemma parse_stringify ts :
  parse (stringify ts) = Some (JArray (jsonOfTask <$> ts)).
Proof.
  destruct (decide (ts = [])) as [->|Hne]; [reflexivity|].
  unfold parse, stringify. change (js "[" ++ ?l) with (91 :: l).
  rewrite run_cons.
  change (step (PState [] MValue) 91) with (Some (PState [FArr []] MFirstElem)).
  cbn [mbind option_bind].
  rewrite (run_stringifyElements ts true) by done.
  rewrite app_nil_r. cbn. by rewrite rev_involutive.
Qed.

Lemma asTask_jsonOfTask t : asTask (jsonOfTask t) = Some t.
Proof. by destruct t. Qed.

Lemma mapM_asTask ts : mapM asTask (jsonOfTask <$> ts) = Some ts.
Proof.
  apply mapM_Some. induction ts as [|t ts IH]; constructor; [|done].
  apply asTask_jsonOfTask.
Qed.

End JSONFacts.

(** ** The array operations of the platform *)

Lemma findIndex_fmap {A B} (f : A → B) (p : B → bool) (l : list A) :
  findIndex p (f <$> l) = findIndex (p ∘ f) l.
Proof. induction l as [|x l IH]; csimpl; [done|]. by rewrite IH. Qed.

Lemma findIndex_lower {A} (p : A → bool) l : (-1 ≤ findIndex p l)%Z.
Proof.
  induction l as [|x l IH]; simpl; [lia|].
  destruct (p x); [lia|]. destruct (Z.eqb_spec (findIndex p l) (-1)); lia.
Qed.

Lemma findIndex_none {A} (p : A → bool) l :
  findIndex p l = (-1)%Z ↔ Forall (fun x => p x = false) l.
Proof.
  induction l as [|x l IH]; simpl; [by split; [constructor|]|].
  pose proof (findIndex_lower p l).
  destruct (p x) eqn:Hx.
  - split; [lia|]. intros HF. apply Forall_cons in HF as [? _]. congruence.
  - destruct (Z.eqb_spec (findIndex p l) (-1)) as [E|E].
    + split; [|done]. intros _. constructor; [done|]. by apply IH.
    + split; [lia|]. intros HF. apply Forall_cons in HF as [_ HF].
      by apply IH in HF.
Qed.

Lemma findIndex_first {A} (p : A → bool) l :
  findIndex p l ≠ (-1)%Z →
  ∃ l1 x l2, l = l1 ++ x :: l2 ∧ p x = true
             ∧ Forall (fun y => p y = false) l1
             ∧ findIndex p l = Z.of_nat (length l1).
Proof.
  induction l as [|x l IH]; simpl; [done|].
  destruct (p x) eqn:Hx.
  - intros _. by exists [], x, l.
  - destruct (Z.eqb_spec (findIndex p l) (-1)) as [E|E]; [done|].
    intros _. destruct (IH E) as (l1 & y & l2 & -> & Hy & Hl1 & Hi).
    exists (x :: l1), y, l2. repeat split; [done| by constructor|].
    rewrite Hi. simpl. lia.
Qed.

Lemma splice1_middle {A} (l1 : list A) x l2 :
  splice1 (Z.of_nat (length l1)) (l1 ++ x :: l2) = l1 ++ l2.
Proof.
  unfold splice1. rewrite length_app. simpl.
  destruct (Z.ltb_spec (Z.of_nat (length l1)) 0); [lia|].
  rewrite Z.min_l by lia. rewrite Nat2Z.id. apply delete_middle.
Qed.

(** The call at hand returns, with the outcome and the state just computed. *)
Ltac returns := eexists _, _; split; [reflexivity|].

(** ** The functions of the script, as equations *)

Section ScriptFacts.

Variable dom : Dom.
Variable canStore : policy.

Lemma sameTaskb_true target t : sameTaskb target t = true ↔ sameTask target t.
Proof.
  unfold sameTaskb, sameTask.
  by rewrite andb_true_iff, !bool_decide_eq_true.
Qed.

Lemma sameTaskb_false target t : sameTaskb target t = false ↔ ¬ sameTask target t.
Proof. rewrite <- sameTaskb_true. by destruct (sameTaskb target t). Qed.

Lemma sameTaskb_refl t : sameTaskb t t = true.
Proof. by apply sameTaskb_true. Qed.

Lemma sameTask_eq target t : sameTask target t ↔ t = target.
Proof.
  unfold sameTask. destruct t as [d b], target as [d' b']; simpl.
  split; [by intros [-> ->]|by intros [= -> ->]].
Qed.

Lemma toggled_toggled t : toggled (toggled t) = t.
Proof. destruct t as [d b]. unfold toggled. simpl. by rewrite negb_involutive. Qed.

Lemma bind_eq {A B} (m : M A) (f : A → M B) s :
  (m ≫= f) s = match m s with
               | (Normal a, s') => f a s'
               | (Throw e, s') => (Throw e, s')
               end.
Proof. reflexivity. Qed.

Lemma updateStorage_eq s :
  updateStorage canStore s
  = let value := JSON.stringify (taskValues s) in
    (setOutcome canStore (localStorage s) value,
     mkState (heap s) (tasks s) (afterSet canStore (localStorage s) value)
       (inputValue s) (listItems s) (alerts s) (S (setItemCalls s)) (created s)).
Proof.
  unfold updateStorage, setItem, setOutcome, afterSet. rewrite bind_eq. cbn [get].
  rewrite bind_eq. cbn [get]. cbv zeta.
  destruct (canStore _ _ _); reflexivity.
Qed.

Lemma renderTask_eq task s :
  renderTask dom task s
  = (Normal tt,
     mkState (heap s) (tasks s) (localStorage s) (inputValue s)
       (if taskListElement dom then listItems s ++ [task] else listItems s)
       (alerts s) (setItemCalls s) (S (created s))).
Proof. reflexivity. Qed.

Lemma forEach_cons f x l s :
  forEach f (x :: l) s = match f x s with
                         | (Normal _, s') => forEach f l s'
                         | (Throw e, s') => (Throw e, s')
                         end.
Proof. reflexivity. Qed.

Lemma forEach_renderTask l s :
  forEach (renderTask dom) l s
  = (Normal tt,
     mkState (heap s) (tasks s) (localStorage s) (inputValue s)
       (if taskListElement dom then listItems s ++ l else listItems s)
       (alerts s) (setItemCalls s) (length l + created s)).
Proof.
  revert s. induction l as [|x l IH]; intros s.
  - destruct s; simpl. rewrite app_nil_r. by destruct (taskListElement dom).
  - rewrite forEach_cons, renderTask_eq, IH. cbn.
    destruct (taskListElement dom); [rewrite <- app_assoc|]; do 2 f_equal; lia.
Qed.

Lemma clearList_eq s :
  taskListElement dom = true →
  clearList dom s
  = (Normal tt,
     mkState (heap s) (tasks s) (localStorage s) (inputValue s) []
       (alerts s) (setItemCalls s) (created s)).
Proof. intros E. unfold clearList. by rewrite E. Qed.

(** [deleteTask]: nothing on a miss; on a hit the splice, the write and,
    when the write did not throw and there is a list, the re-rendering. *)
Lemma deleteTask_unfold target s :
  deleteTask dom canStore target s
  = let taskIndex := findIndex (sameTaskb (heap s !!! target)) (taskValues s) in
    if negb (taskIndex =? -1)%Z then
      let tasks' := splice1 taskIndex (tasks s) in
      let value := JSON.stringify ((fun r => heap s !!! r) <$> tasks') in
      let rendered := canStore (localStorage s) (js "tasks") value
                      && taskListElement dom in
      (setOutcome canStore (localStorage s) value,
       mkState (heap s) tasks' (afterSet canStore (localStorage s) value)
         (inputValue s)
         (if rendered then tasks' else listItems s)
         (alerts s) (S (setItemCalls s))
         (if rendered then length tasks' + created s else created s))
    else (Normal tt, s).
Proof.
  unfold deleteTask. rewrite bind_eq. cbn [get].
  fold (sameTaskb (heap s !!! target)).
  cbv zeta. destruct (negb _); [|reflexivity].
  rewrite bind_eq. cbn [put]. rewrite bind_eq, updateStorage_eq. cbv zeta.
  unfold setOutcome, afterSet, taskValues.
  cbn [heap tasks localStorage inputValue listItems alerts setItemCalls created].
  destruct (canStore _ _ _); [|reflexivity]. cbn [andb].
  destruct (taskListElement dom) eqn:E; [|reflexivity].
  repeat first
    [ rewrite bind_eq | rewrite forEach_renderTask
    | rewrite clearList_eq by done
    | progress cbn [get put heap tasks localStorage inputValue listItems
                    alerts setItemCalls created] ].
  by rewrite E.
Qed.

Lemma onChange_eq task s :
  onChange canStore task s
  = let heap' := <[task := toggled (heap s !!! task)]> (heap s) in
    let value := JSON.stringify ((fun r => heap' !!! r) <$> tasks s) in
    (setOutcome canStore (localStorage s) value,
     mkState heap' (tasks s) (afterSet canStore (localStorage s) value)
       (inputValue s) (listItems s) (alerts s) (S (setItemCalls s)) (created s)).
Proof.
  unfold onChange. rewrite bind_eq. cbn [get]. rewrite bind_eq. cbn [put].
  by rewrite updateStorage_eq.
Qed.

Lemma alert_eq message s :
  alert message s
  = (Normal tt,
     mkState (heap s) (tasks s) (localStorage s) (inputValue s)
       (listItems s) (alerts s ++ [message]) (setItemCalls s) (created s)).
Proof. reflexivity. Qed.

Lemma newTask_eq d s :
  newTask d s
  = (Normal (length (heap s)),
     mkState (heap s ++ [mkTask d false]) (tasks s) (localStorage s) (inputValue s)
       (listItems s) (alerts s) (setItemCalls s) (created s)).
Proof. reflexivity. Qed.

Lemma addTask_eq task s :
  addTask task s
  = (Normal tt,
     mkState (heap s) (tasks s ++ [task]) (localStorage s) (inputValue s)
       (listItems s) (alerts s) (setItemCalls s) (created s)).
Proof. reflexivity. Qed.

(** The body of the submit listener: the field is emptied only when the
    write did not throw. *)
Lemma submitTask_eq d s :
  formInput dom = true →
  submitTask dom canStore d s
  = let heap' := heap s ++ [mkTask d false] in
    let tasks' := tasks s ++ [length (heap s)] in
    let value := JSON.stringify ((fun r => heap' !!! r) <$> tasks') in
    (setOutcome canStore (localStorage s) value,
     mkState heap' tasks' (afterSet canStore (localStorage s) value)
       (if canStore (localStorage s) (js "tasks") value then [] else inputValue s)
       (if taskListElement dom then listItems s ++ [length (heap s)]
        else listItems s)
       (alerts s) (S (setItemCalls s)) (S (created s))).
Proof.
  intros E. unfold submitTask, writeInput. rewrite E.
  rewrite bind_eq, newTask_eq, bind_eq, addTask_eq, bind_eq, renderTask_eq.
  rewrite bind_eq, updateStorage_eq. cbv zeta.
  unfold setOutcome, afterSet, taskValues.
  cbn [heap tasks localStorage inputValue listItems alerts setItemCalls created].
  destruct (canStore _ _ _); reflexivity.
Qed.

Lemma onSubmit_eq s :
  onSubmit dom canStore s
  = if formInput dom && truthy (inputValue s)
    then submitTask dom canStore (inputValue s) s
    else alert (js "Please enter a task description") s.
Proof.
  unfold onSubmit, readInput. rewrite !bind_eq. cbn [get mret M_ret].
  destruct (formInput dom); [|reflexivity].
  by destruct (truthy (inputValue s)).
Qed.

Lemma dispatch_Submit s :
  dispatch dom canStore Submit s
  = if taskForm dom then onSubmit dom canStore s else (Normal tt, s).
Proof. simpl. by destruct (taskForm dom). Qed.

Lemma dispatch_Change row s :
  dispatch dom canStore (Change row) s
  = match listItems s !! row with
    | Some task => onChange canStore task s
    | None => (Normal tt, s)
    end.
Proof. simpl. rewrite bind_eq. cbn [get]. by destruct (listItems s !! row). Qed.

Lemma dispatch_Click row s :
  dispatch dom canStore (Click row) s
  = match listItems s !! row with
    | Some task => deleteTask dom canStore task s
    | None => (Normal tt, s)
    end.
Proof. simpl. rewrite bind_eq. cbn [get]. by destruct (listItems s !! row). Qed.

Lemma dispatch_Input text s :
  dispatch dom canStore (Input text) s
  = (Normal tt,
     if formInput dom
     then mkState (heap s) (tasks s) (localStorage s) text (listItems s)
            (alerts s) (setItemCalls s) (created s)
     else s).
Proof. simpl. unfold writeInput. by destruct (formInput dom). Qed.

(** *** Reading objects through references *)

Lemma lookup_total_alloc (h : list Task) t r :
  (r < length h)%nat → (h ++ [t]) !!! r = h !!! r.
Proof.
  intros Hr. rewrite !list_lookup_total_alt. by rewrite lookup_app_l.
Qed.

Lemma lookup_total_new (h : list Task) t : (h ++ [t]) !!! length h = t.
Proof.
  rewrite list_lookup_total_alt, lookup_app_r by lia.
  by rewrite Nat.sub_diag.
Qed.

Lemma values_alloc (h : list Task) t (l : list ref) :
  Forall (fun r => (r < length h)%nat) l →
  (fun r => (h ++ [t]) !!! r) <$> l = (fun r => h !!! r) <$> l.
Proof.
  intros Hl. apply list_fmap_ext. intros i r Hir.
  apply lookup_total_alloc. eapply Forall_lookup_1 in Hl; eauto.
Qed.

Lemma values_toggle (h : list Task) (l : list ref) row task :
  NoDup l → l !! row = Some task → (task < length h)%nat →
  (fun r => <[task := toggled (h !!! task)]> h !!! r) <$> l
  = <[row := toggled (h !!! task)]> ((fun r => h !!! r) <$> l).
Proof.
  intros Hnd Hrow Htask. apply list_eq. intros j.
  rewrite list_lookup_fmap.
  destruct (decide (j = row)) as [->|Hj].
  - rewrite list_lookup_insert_eq by (rewrite length_fmap; by eapply lookup_lt_Some).
    rewrite Hrow. simpl. f_equal.
    by apply list_lookup_total_insert_eq.
  - rewrite list_lookup_insert_ne by done. rewrite list_lookup_fmap.
    destruct (l !! j) as [r|] eqn:Hr; [|done]. simpl. f_equal.
    apply list_lookup_total_insert_ne. intros ->.
    apply Hj. eapply NoDup_lookup; eauto.
Qed.

Lemma values_toggle_absent (h : list Task) (l : list ref) task x :
  task ∉ l →
  (fun r => <[task := x]> h !!! r) <$> l = (fun r => h !!! r) <$> l.
Proof.
  intros Hnot. apply list_fmap_ext. intros i r Hir.
  apply list_lookup_total_insert_ne. intros ->.
  apply Hnot. by eapply list_elem_of_lookup_2.
Qed.

Lemma values_seq (ts : list Task) :
  (fun r => ts !!! r) <$> seq 0 (length ts) = ts.
Proof.
  apply list_eq. intros i. rewrite list_lookup_fmap.
  destruct (ts !! i) as [t|] eqn:Hi.
  - rewrite lookup_seq_lt by (by eapply lookup_lt_Some). simpl.
    f_equal. by apply list_lookup_total_correct.
  - rewrite lookup_seq_ge; [done|]. by apply lookup_ge_None.
Qed.

(** *** The start of the script *)

Lemma startup_inv storage s0 :
  startup dom storage = Some (Normal s0) →
  ∃ elements ts,
    loadTasks storage = Normal (JArray elements)
    ∧ mapM asTask elements = Some ts
    ∧ s0 = mkState ts (seq 0 (length ts)) storage []
             (if taskListElement dom then seq 0 (length ts) else [])
             [] 0 (length ts + 0).
Proof.
  unfold startup. destruct (loadTasks storage) as [v|e]; [|done].
  destruct v as [| | | |elements|]; try done.
  destruct (mapM asTask elements) as [ts|] eqn:Hts; [|done].
  rewrite forEach_renderTask. cbn. intros [= <-].
  exists elements, ts. by rewrite length_seq.
Qed.

Lemma consistent_startup storage s0 :
  startup dom storage = Some (Normal s0) → consistent dom s0 ∧ rowsCurrent dom s0.
Proof.
  intros (elements & ts & _ & _ & ->)%startup_inv.
  assert (Forall (fun r => (r < length ts)%nat) (seq 0 (length ts))) as Hvalid
    by (apply Forall_seq; intros; lia).
  unfold consistent, rowsCurrent, refsValid; cbn.
  split; [|done]. split; [done|]. split; [apply NoDup_seq|].
  destruct (taskListElement dom); [|done].
  split; [done|]. split; [apply NoDup_seq|done].
Qed.

(** *** [deleteTask] on a hit and on a miss *)

Lemma deleteTask_hit target s :
  findIndex (sameTaskb (heap s !!! target)) (taskValues s) ≠ (-1)%Z →
  ∃ before r after,
    tasks s = before ++ r :: after
    ∧ sameTask (heap s !!! target) (heap s !!! r)
    ∧ Forall (fun r' => ¬ sameTask (heap s !!! target) (heap s !!! r')) before
    ∧ deleteTask dom canStore target s
      = let value := JSON.stringify ((fun r => heap s !!! r) <$> before ++ after) in
        let rendered := canStore (localStorage s) (js "tasks") value
                        && taskListElement dom in
        (setOutcome canStore (localStorage s) value,
         mkState (heap s) (before ++ after)
           (afterSet canStore (localStorage s) value)
           (inputValue s)
           (if rendered then before ++ after else listItems s)
           (alerts s) (S (setItemCalls s))
           (if rendered then length (before ++ after) + created s else created s)).
Proof.
  intros Hfound. rewrite deleteTask_unfold. cbv zeta.
  destruct (Z.eqb_spec (findIndex (sameTaskb (heap s !!! target)) (taskValues s)) (-1))
    as [|_]; [done|]. cbn [negb].
  unfold taskValues in *. rewrite findIndex_fmap in *.
  destruct (findIndex_first _ _ Hfound) as (before & r & after & Hl & Hr & Hb & ->).
  exists before, r, after. rewrite Hl, splice1_middle.
  split; [done|]. split; [by apply sameTaskb_true|]. split; [|done].
  eapply Forall_impl; [exact Hb|]. intros r' Hr'. by apply sameTaskb_false.
Qed.

Lemma deleteTask_miss target s :
  findIndex (sameTaskb (heap s !!! target)) (taskValues s) = (-1)%Z →
  deleteTask dom canStore target s = (Normal tt, s).
Proof. intros E. rewrite deleteTask_unfold. cbv zeta. by rewrite E. Qed.

(** *** What every event keeps *)

Lemma consistent_dispatch e s :
  consistent dom s → consistent dom (dispatch dom canStore e s).2.
Proof.
  intros (Hvalid & Hnd & Hrows). destruct e as [text| |row|row].
  - rewrite dispatch_Input. cbn [snd]. by destruct (formInput dom).
  - rewrite dispatch_Submit. destruct (taskForm dom); [|done].
    rewrite onSubmit_eq. destruct (formInput dom) eqn:E; cbn [andb]; [|done].
    destruct (truthy (inputValue s)); [|done].
    rewrite submitTask_eq by done. cbv zeta. cbn [snd].
    unfold consistent, refsValid in *.
    cbn [heap tasks localStorage inputValue listItems alerts setItemCalls created].
    rewrite length_app. cbn [length].
    assert (∀ l : list ref, Forall (fun r => (r < length (heap s))%nat) l →
              Forall (fun r => (r < length (heap s) + 1)%nat) (l ++ [length (heap s)]))
      as Hgrow.
    { intros l Hl. apply Forall_app; split.
      - eapply Forall_impl; [exact Hl|]. intros; simpl in *; lia.
      - constructor; [lia|constructor]. }
    assert (∀ l : list ref, Forall (fun r => (r < length (heap s))%nat) l →
              NoDup l → NoDup (l ++ [length (heap s)])) as Hfresh.
    { intros l Hl Hl'. apply NoDup_app; repeat split; [done| |apply NoDup_singleton].
      intros r Hr ->%list_elem_of_singleton.
      eapply Forall_forall in Hl; [|exact Hr]. simpl in Hl. lia. }
    split; [by apply Hgrow|]. split; [by apply Hfresh|].
    destruct (taskListElement dom).
    + destruct Hrows as (Hsub & Hnd' & Hvalid').
      split; [by apply sublist_app|]. split; [by apply Hfresh|by apply Hgrow].
    + done.
  - rewrite dispatch_Change. destruct (listItems s !! row) as [task|]; [|done].
    rewrite onChange_eq. cbv zeta. cbn [snd].
    unfold consistent, refsValid in *.
    cbn [heap tasks localStorage inputValue listItems alerts setItemCalls created].
    by rewrite length_insert.
  - rewrite dispatch_Click. destruct (listItems s !! row) as [task|]; [|done].
    destruct (decide (findIndex (sameTaskb (heap s !!! task)) (taskValues s) = (-1)%Z))
      as [Hm|Hh].
    + by rewrite deleteTask_miss.
    + destruct (deleteTask_hit task s Hh) as (before & r & after & Hl & _ & _ & ->).
      cbv zeta. cbn [snd]. unfold consistent, refsValid in *.
      cbn [heap tasks localStorage inputValue listItems alerts setItemCalls created].
      assert (before ++ after `sublist_of` tasks s) as Hsub'.
      { rewrite Hl. apply sublist_app; [done|]. by apply sublist_cons. }
      assert (Forall (fun r => (r < length (heap s))%nat) (before ++ after)) as Hv'.
      { eapply Forall_forall. intros x Hx. eapply Forall_forall in Hvalid; [exact Hvalid|].
        by eapply sublist_subseteq. }
      assert (NoDup (before ++ after)) as Hn' by (by eapply sublist_NoDup).
      split; [done|]. split; [done|].
      destruct (taskListElement dom); [|by rewrite andb_false_r].
      destruct Hrows as (Hsub & Hnd' & Hvalid'). rewrite andb_true_r.
      destruct (canStore _ _ _); [done|].
      split; [by etrans|done].
Qed.

(** An event that ends normally leaves rows that are the array when they
    were. *)
Lemma current_dispatch e s s' :
  rowsCurrent dom s → dispatch dom canStore e s = (Normal tt, s') →
  rowsCurrent dom s'.
Proof.
  unfold rowsCurrent. intros Hrows. destruct e as [text| |row|row].
  - rewrite dispatch_Input. intros [= <-]. by destruct (formInput dom).
  - rewrite dispatch_Submit. destruct (taskForm dom); [|by intros [= <-]].
    rewrite onSubmit_eq. destruct (formInput dom) eqn:E; cbn [andb];
      [|by intros [= <-]].
    destruct (truthy (inputValue s)); [|by intros [= <-]].
    rewrite submitTask_eq by done. cbv zeta. intros [= _ <-]. cbn.
    rewrite Hrows. by destruct (taskListElement dom).
  - rewrite dispatch_Change. destruct (listItems s !! row) as [task|];
      [|by intros [= <-]].
    rewrite onChange_eq. cbv zeta. by intros [= _ <-].
  - rewrite dispatch_Click. destruct (listItems s !! row) as [task|];
      [|by intros [= <-]].
    rewrite deleteTask_unfold. cbv zeta. destruct (negb _); [|by intros [= <-]].
    unfold setOutcome. destruct (canStore _ _ _); [|done].
    intros [= <-]. cbn. by destruct (taskListElement dom).
Qed.

Lemma run_cons_eq e es s :
  run dom canStore (e :: es) s
  = match dispatch dom canStore e s with
    | (Normal _, s') => run dom canStore es s'
    | (Throw x, s') =>
        let (errors, s'') := run dom canStore es s' in (x :: errors, s'')
    end.
Proof. reflexivity. Qed.

Lemma run_snd e es s :
  (run dom canStore (e :: es) s).2
  = (run dom canStore es (dispatch dom canStore e s).2).2.
Proof.
  rewrite run_cons_eq. destruct (dispatch dom canStore e s) as [[[]|x] s1]; cbn [snd];
    [done|]. by destruct (run dom canStore es s1).
Qed.

(** A run without exception is a run of events that all ended normally. *)
Lemma run_quiet_cons e es s s' :
  run dom canStore (e :: es) s = ([], s') →
  ∃ s1, dispatch dom canStore e s = (Normal tt, s1)
        ∧ run dom canStore es s1 = ([], s').
Proof.
  rewrite run_cons_eq. destruct (dispatch dom canStore e s) as [[[]|x] s1].
  - intros H. by exists s1.
  - by destruct (run dom canStore es s1).
Qed.

Lemma consistent_run es s :
  consistent dom s → consistent dom (run dom canStore es s).2.
Proof.
  revert s. induction es as [|e es IH]; intros s Hs; [done|].
  rewrite run_snd. apply IH. by apply consistent_dispatch.
Qed.

Lemma current_run es s s' :
  rowsCurrent dom s → run dom canStore es s = ([], s') → rowsCurrent dom s'.
Proof.
  revert s. induction es as [|e es IH]; intros s Hs.
  - by intros [= <-].
  - intros (s1 & Hstep & Hrun)%run_quiet_cons.
    eapply IH; [|exact Hrun]. by eapply current_dispatch.
Qed.

Lemma reachable_consistent s : reachable dom canStore s → consistent dom s.
Proof.
  intros (storage & s0 & es & Hstart & <-).
  apply consistent_run. by eapply consistent_startup.
Qed.

End ScriptFacts.

(** ** Reachable example states *)

Lemma run_reachable (dom : Dom) (canStore : policy) storage s0 es s :
  startup dom storage = Some (Normal s0) → (run dom canStore es s0).2 = s →
  reachable dom canStore s.
Proof. intros H0 Hs. by exists storage, s0, es. Qed.

Lemma milkTyped_reachable : reachable fullPage smallStore milkTyped.
Proof.
  apply (run_reachable fullPage smallStore ∅ freshPage
           [Input (js "Buy milk"); Submit; Input (js "Buy milk")]).
  - reflexivity.
  - vm_compute. reflexivity.
Qed.


(** ** The snapshot follows the array *)

Lemma outcome_cases (canStore : policy) storage value :
  (setOutcome canStore storage value = Normal tt
   ∧ canStore storage (js "tasks") value = true
   ∧ afterSet canStore storage value = <[js "tasks" := value]> storage)
  ∨ (setOutcome canStore storage value = Throw QuotaExceededError
     ∧ canStore storage (js "tasks") value = false
     ∧ afterSet canStore storage value = storage).
Proof.
  unfold setOutcome, afterSet. destruct (canStore _ _ _); [by left|by right].
Qed.

Lemma row_is_found (dom : Dom) s row task :
  consistent dom s → rowsCurrent dom s → listItems s !! row = Some task →
  tasks s !! row = Some task
  ∧ findIndex (sameTaskb (heap s !!! task)) (taskValues s) ≠ (-1)%Z.
Proof.
  intros Hs Hcur Hrow. unfold rowsCurrent in Hcur. rewrite Hcur in Hrow.
  destruct (taskListElement dom); [|done]. split; [done|].
  intros Hnone%findIndex_none.
  assert (taskValues s !! row = Some (heap s !!! task)) as Hv
    by (unfold taskValues; by rewrite list_lookup_fmap, Hrow).
  eapply Forall_lookup_1 in Hnone; [|exact Hv]. simpl in Hnone.
  by rewrite sameTaskb_refl in Hnone.
Qed.




(** ** Loading *)

(** C2, as the script has it.  [loadTasks] returns the decoded value when a
    non-empty snapshot is stored and decodes, and an empty array when nothing
    is stored or the stored string is empty.  When the stored text does not
    decode, the SyntaxError of [JSON.parse] leaves [loadTasks] and stops the
    script at line 19: there is no array, empty or otherwise. *)
Theorem loadTasks_cases (dom : Dom) (storage : gmap jsstring jsstring) :
  (storage !! js "tasks" = None → loadTasks storage = Normal (JArray []))
  ∧ (storage !! js "tasks" = Some [] → loadTasks storage = Normal (JArray []))
  ∧ (∀ text v,
       storage !! js "tasks" = Some text → text ≠ [] → JSON.parse text = Some v →
       loadTasks storage = Normal v
       ∧ ∀ ts, asTasks v = Some ts →
               ∃ s0, startup dom storage = Some (Normal s0) ∧ taskValues s0 = ts)
  ∧ (∀ text,
       storage !! js "tasks" = Some text → text ≠ [] → JSON.parse text = None →
       loadTasks storage = Throw SyntaxError
       ∧ startup dom storage = Some (Throw SyntaxError)).
Proof.
  unfold startup, loadTasks. split; [|split; [|split]].
  - by intros ->.
  - by intros ->.
  - intros text v -> Htext ->. destruct text; [done|]. simpl.
    split; [done|]. intros ts Hts.
    destruct v as [| | | |elements|]; try done. simpl in Hts. rewrite Hts.
    rewrite forEach_renderTask. eexists; split; [done|].
    unfold taskValues; cbn. apply values_seq.
  - intros text -> Htext ->. by destruct text.
Qed.

Lemma loadTasks_cases_witness :
  loadTasks ∅ = Normal (JArray [])
  ∧ loadTasks {[ js "tasks" := [] ]} = Normal (JArray [])
  ∧ loadTasks {[ js "tasks" := jsq "[{'description':'A','isCompleted':true}]" ]}
    = Normal (JArray [jsonOfTask (mkTask (js "A") true)])
  ∧ loadTasks {[ js "tasks" := jsq "[{'description':" ]} = Throw SyntaxError.
Proof.
  split; [|split; [|split]].
  - destruct (loadTasks_cases fullPage ∅) as (H & _). apply H. reflexivity.
  - destruct (loadTasks_cases fullPage {[ js "tasks" := [] ]}) as (_ & H & _).
    apply H. reflexivity.
  - destruct (loadTasks_cases fullPage
                {[ js "tasks" := jsq "[{'description':'A','isCompleted':true}]" ]})
      as (_ & _ & H & _).
    eapply H; [reflexivity|discriminate|reflexivity].
  - destruct (loadTasks_cases fullPage {[ js "tasks" := jsq "[{'description':" ]})
      as (_ & _ & _ & H).
    eapply H; [reflexivity|discriminate|reflexivity].
Defined.

(** C2 as claimed fails: a stored text that does not decode makes
    [loadTasks] throw; it does not return an empty array. *)
Lemma loadTasks_corrupt_snapshot_throws :
  let storage : gmap jsstring jsstring := {[ js "tasks" := jsq "[{'description':" ]} in
  JSON.parse (jsq "[{'description':") = None
  ∧ loadTasks storage = Throw SyntaxError
  ∧ loadTasks storage ≠ Normal (JArray [])
  ∧ startup fullPage storage = Some (Throw SyntaxError).
Proof. repeat split; done. Qed.


(** ** Submitting *)

(** C3, as the script has it.  A submit that reaches the listener while the
    field holds the empty string changes nothing but the alerts: the array,
    the objects and the storage are as before, [setItem] was not called, and
    the alert ['Please enter a task description'] was shown. *)
Theorem submit_empty_alerts (dom : Dom) (canStore : policy) s :
  taskForm dom = true → formInput dom = true → inputValue s = [] →
  dispatch dom canStore Submit s
  = (Normal tt,
     mkState (heap s) (tasks s) (localStorage s) (inputValue s)
       (listItems s)
       (alerts s ++ [js "Please enter a task description"])
       (setItemCalls s) (created s)).
Proof.
  intros Hform Hinput Hempty.
  rewrite dispatch_Submit, Hform, onSubmit_eq, Hinput, Hempty. simpl.
  by rewrite alert_eq, Hempty.
Qed.

Lemma submit_empty_alerts_witness :
  dispatch fullPage unlimited Submit freshPage
  = (Normal tt, mkState [] [] ∅ [] [] [js "Please enter a task description"] 0 0).
Proof. apply (submit_empty_alerts fullPage unlimited freshPage); reflexivity. Defined.

(** C3 as claimed fails on a field that holds only spaces: such a string is
    truthy, so the task is added and stored and no alert is shown. *)
Lemma submit_whitespace_adds_task :
  whitespaceOnly (inputValue blankTyped) = true
  ∧ ∃ s', dispatch fullPage unlimited Submit blankTyped = (Normal tt, s')
          ∧ taskValues blankTyped = []
          ∧ taskValues s' = [mkTask (js "   ") false]
          ∧ localStorage s' !! js "tasks"
            = Some (jsq "[{'description':'   ','isCompleted':false}]")
          ∧ setItemCalls s' = 1%nat
          ∧ alerts s' = [].
Proof.
  split; [reflexivity|]. eexists. split; [reflexivity|].
  repeat split; vm_compute; reflexivity.
Qed.

(** C4.  Creating the object of lines 42-45 for a description and passing it
    to [addTask] gives the old sequence followed by
    [{description, isCompleted: false}], whatever the description and
    whether or not an equal task is already there; this is what a submit with
    that text in the field does to the sequence, and the listener ends as the
    call of [setItem] on the new sequence ends: the task is in the sequence
    also when that call throws. *)
Theorem add_appends_new_task (dom : Dom) (canStore : policy) s d :
  refsValid s →
  (∃ task s1 s2,
     newTask d s = (Normal task, s1) ∧ addTask task s1 = (Normal tt, s2)
     ∧ taskValues s2 = taskValues s ++ [mkTask d false]
     ∧ length (taskValues s2) = S (length (taskValues s))
     ∧ last (taskValues s2) = Some (mkTask d false))
  ∧ (taskForm dom = true → formInput dom = true → inputValue s = d → d ≠ [] →
     ∃ o s', dispatch dom canStore Submit s = (o, s')
             ∧ o = setOutcome canStore (localStorage s)
                     (JSON.stringify (taskValues s ++ [mkTask d false]))
             ∧ taskValues s' = taskValues s ++ [mkTask d false]).
Proof.
  intros Hvalid.
  assert ((fun r => (heap s ++ [mkTask d false]) !!! r) <$> (tasks s ++ [length (heap s)])
          = taskValues s ++ [mkTask d false]) as Hvalues.
  { rewrite fmap_app, values_alloc by done. simpl. by rewrite lookup_total_new. }
  split.
  - exists (length (heap s)),
      (mkState (heap s ++ [mkTask d false]) (tasks s) (localStorage s) (inputValue s)
         (listItems s) (alerts s) (setItemCalls s) (created s)),
      (mkState (heap s ++ [mkTask d false]) (tasks s ++ [length (heap s)])
         (localStorage s) (inputValue s) (listItems s) (alerts s) (setItemCalls s)
         (created s)).
    split; [reflexivity|]. split; [reflexivity|].
    unfold taskValues at 1 3 5. cbn [heap tasks]. rewrite Hvalues.
    split; [done|]. split; [|apply last_snoc].
    rewrite length_app. simpl. lia.
  - intros Hform Hinput <- Htext.
    rewrite dispatch_Submit, Hform, onSubmit_eq, Hinput.
    assert (truthy (inputValue s) = true) as -> by (by destruct (inputValue s)).
    simpl. rewrite submitTask_eq by done. cbv zeta. returns.
    split; [|exact Hvalues].
    by rewrite Hvalues.
Qed.

Lemma add_appends_new_task_witness :
  ∃ o s', dispatch fullPage smallStore Submit milkTyped = (o, s')
          ∧ o = setOutcome smallStore (localStorage milkTyped)
                  (JSON.stringify (taskValues milkTyped ++ [mkTask (js "Buy milk") false]))
          ∧ taskValues s'
            = [mkTask (js "Buy milk") false; mkTask (js "Buy milk") false].
Proof.
  destruct (add_appends_new_task fullPage smallStore milkTyped (js "Buy milk"))
    as [_ H].
  - repeat constructor.
  - apply H; [reflexivity|reflexivity|reflexivity|discriminate].
Defined.

(** ** Deleting *)

(** C5.  [deleteTask] leaves the objects alone.  Either no element of the
    array has the target's description and flag, and the state is unchanged;
    or the array is [before ++ r :: after] where [r] is the first element
    with that description and flag, and the array becomes [before ++ after]:
    one element is removed, the first match, and the others (later matches
    included) keep their order, and the call ends as the call of [setItem] on
    the new sequence ends: the element is removed also when that call
    throws. *)
Theorem deleteTask_removes_first_match (dom : Dom) (canStore : policy) s target :
  ∃ o s',
    deleteTask dom canStore target s = (o, s') ∧ heap s' = heap s
    ∧ (o = Normal tt ∨ o = Throw QuotaExceededError)
    ∧ ((Forall (fun t => ¬ sameTask (heap s !!! target) t) (taskValues s)
        ∧ o = Normal tt ∧ s' = s)
       ∨ (∃ before r after,
            tasks s = before ++ r :: after
            ∧ sameTask (heap s !!! target) (heap s !!! r)
            ∧ Forall (fun r' => ¬ sameTask (heap s !!! target) (heap s !!! r')) before
            ∧ tasks s' = before ++ after
            ∧ taskValues s
              = ((fun r => heap s !!! r) <$> before) ++ heap s !!! r
                  :: ((fun r => heap s !!! r) <$> after)
            ∧ taskValues s'
              = ((fun r => heap s !!! r) <$> before) ++ ((fun r => heap s !!! r) <$> after)
            ∧ length (tasks s) = S (length (tasks s'))
            ∧ o = setOutcome canStore (localStorage s)
                    (JSON.stringify (taskValues s')))).
Proof.
  destruct (decide (findIndex (sameTaskb (heap s !!! target)) (taskValues s) = (-1)%Z))
    as [Hnone|Hsome].
  - exists (Normal tt), s. rewrite deleteTask_miss by done.
    split; [done|]. split; [done|]. split; [by left|].
    left. split; [|done]. apply findIndex_none in Hnone.
    eapply Forall_impl; [exact Hnone|]. intros t Ht. by apply sameTaskb_false.
  - destruct (deleteTask_hit dom canStore target s Hsome)
      as (before & r & after & Htasks & Hr & Hbefore & ->).
    cbv zeta. returns. split; [done|].
    split; [unfold setOutcome; destruct (canStore _ _ _); [by left|by right]|].
    right. exists before, r, after. unfold taskValues. cbn [heap tasks].
    rewrite Htasks, !fmap_app, fmap_cons, !length_app. simpl.
    split; [done|]. split; [done|]. split; [done|]. split; [done|].
    split; [done|]. split; [done|]. split; [lia|done].
Qed.

(** C10.  When no element of the array has the target's description and
    flag, [deleteTask] returns with the very state it was called in: same
    array, same storage, no call of [setItem], no row created or removed. *)
Theorem deleteTask_without_match_is_noop (dom : Dom) (canStore : policy) s target :
  Forall (fun t => ¬ sameTask (heap s !!! target) t) (taskValues s) →
  deleteTask dom canStore target s = (Normal tt, s).
Proof.
  intros Hnone. apply deleteTask_miss. apply findIndex_none.
  eapply Forall_impl; [exact Hnone|]. intros t Ht. by apply sameTaskb_false.
Qed.

Lemma deleteTask_without_match_is_noop_witness :
  deleteTask fullPage smallStore 1 strayObject = (Normal tt, strayObject).
Proof.
  apply (deleteTask_without_match_is_noop fullPage smallStore strayObject 1).
  repeat constructor. intros [H _]. discriminate H.
Defined.

(** ** Toggling *)

(** C6.  The [change] listener of a task's checkbox replaces the task's flag
    by its negation and then stores the array; run twice, it leaves every
    object, the array and so the sequence as they were.  Each run ends as
    its call of [setItem] on the sequence ends; after a run whose write did
    not throw, the snapshot is the serialization of the array. *)
Theorem toggle_twice_restores (canStore : policy) s task t :
  heap s !! task = Some t →
  ∃ o1 s1 o2 s2,
    onChange canStore task s = (o1, s1)
    ∧ o1 = setOutcome canStore (localStorage s) (JSON.stringify (taskValues s1))
    ∧ heap s1 !! task = Some (mkTask (description t) (negb (isCompleted t)))
    ∧ (o1 = Normal tt → persisted s1)
    ∧ onChange canStore task s1 = (o2, s2)
    ∧ o2 = setOutcome canStore (localStorage s1) (JSON.stringify (taskValues s2))
    ∧ heap s2 = heap s ∧ tasks s2 = tasks s ∧ taskValues s2 = taskValues s
    ∧ (o2 = Normal tt → persisted s2).
Proof.
  intros Ht. pose proof (lookup_lt_Some _ _ _ Ht) as Hlt.
  rewrite onChange_eq. cbv zeta. eexists _, _, _, _. split; [reflexivity|].
  rewrite onChange_eq. cbv zeta.
  cbn [heap tasks localStorage inputValue listItems alerts setItemCalls created].
  rewrite (list_lookup_total_correct _ _ _ Ht).
  rewrite list_lookup_total_insert_eq by done.
  rewrite list_insert_insert_eq, toggled_toggled, (list_insert_id _ _ _ Ht).
  assert (∀ storage value, setOutcome canStore storage value = Normal tt →
            afterSet canStore storage value !! js "tasks" = Some value) as Hok.
  { intros storage value. unfold setOutcome, afterSet.
    destruct (canStore _ _ _); [|done]. intros _. apply lookup_insert_eq. }
  split; [reflexivity|].
  split; [by apply list_lookup_insert_eq|].
  split; [intros Ho; by apply Hok|].
  split; [reflexivity|].
  split; [reflexivity|].
  split; [done|]. split; [done|]. split; [done|].
  intros Ho. by apply Hok.
Qed.

Lemma toggle_twice_restores_witness :
  ∃ o1 s1 o2 s2,
    onChange smallStore 0 milkTyped = (o1, s1)
    ∧ o1 = setOutcome smallStore (localStorage milkTyped)
             (JSON.stringify (taskValues s1))
    ∧ heap s1 !! 0%nat = Some (mkTask (js "Buy milk") true)
    ∧ (o1 = Normal tt → persisted s1)
    ∧ onChange smallStore 0 s1 = (o2, s2)
    ∧ o2 = setOutcome smallStore (localStorage s1) (JSON.stringify (taskValues s2))
    ∧ heap s2 = heap milkTyped ∧ tasks s2 = tasks milkTyped
    ∧ taskValues s2 = taskValues milkTyped
    ∧ (o2 = Normal tt → persisted s2).
Proof.
  apply (toggle_twice_restores smallStore milkTyped 0 (mkTask (js "Buy milk") false)).
  reflexivity.
Defined.

(** C9.  In every state the page can reach, a tick on a row writes one
    field: the flag of the task the row holds, which keeps its description.
    The array is the same, so the sequence keeps its length and order; a
    position that holds another task is unchanged, and the one position (if
    any) that holds the task has the flag flipped.  While the rows are the
    array's, that position is the row's.  The listener ends as its call of
    [setItem] on the sequence ends; the flag is flipped also when that call
    throws. *)
Theorem toggle_changes_one_flag (dom : Dom) (canStore : policy) s row :
  reachable dom canStore s → (row < length (listItems s))%nat →
  ∃ o s' task t,
    dispatch dom canStore (Change row) s = (o, s')
    ∧ o = setOutcome canStore (localStorage s) (JSON.stringify (taskValues s'))
    ∧ listItems s !! row = Some task ∧ heap s !! task = Some t
    ∧ heap s' = <[task := mkTask (description t) (negb (isCompleted t))]> (heap s)
    ∧ tasks s' = tasks s
    ∧ length (taskValues s') = length (taskValues s)
    ∧ (∀ j, tasks s !! j ≠ Some task → taskValues s' !! j = taskValues s !! j)
    ∧ (∀ j, tasks s !! j = Some task →
            taskValues s'
            = <[j := mkTask (description t) (negb (isCompleted t))]> (taskValues s))
    ∧ (rowsCurrent dom s →
       taskValues s !! row = Some t
       ∧ taskValues s'
         = <[row := mkTask (description t) (negb (isCompleted t))]> (taskValues s)
       ∧ ∀ j, j ≠ row → taskValues s' !! j = taskValues s !! j).
Proof.
  intros (Hvalid & Hnd & Hrows)%reachable_consistent Hrow.
  destruct (lookup_lt_is_Some_2 _ _ Hrow) as [task Htask].
  assert (task < length (heap s))%nat as Hlt.
  { destruct (taskListElement dom).
    - destruct Hrows as (_ & _ & Hv). by eapply (Forall_lookup_1 _ _ _ _ Hv).
    - by rewrite Hrows in Htask. }
  destruct (lookup_lt_is_Some_2 _ _ Hlt) as [t Ht].
  rewrite dispatch_Change, Htask, onChange_eq. cbv zeta.
  eexists _, _, task, t. split; [reflexivity|].
  rewrite (list_lookup_total_correct _ _ _ Ht). fold (toggled t).
  split; [reflexivity|].
  split; [done|]. split; [done|]. split; [done|]. split; [done|].
  unfold taskValues. cbn [heap tasks].
  split; [by rewrite !length_fmap|].
  assert (∀ j, tasks s !! j = Some task →
            (fun r => <[task := toggled t]> (heap s) !!! r) <$> tasks s
            = <[j := toggled t]> ((fun r => heap s !!! r) <$> tasks s)) as Hat.
  { intros j Hj. rewrite <- (list_lookup_total_correct _ _ _ Ht).
    by apply values_toggle. }
  split; [|split; [exact Hat|]].
  - intros j Hj. rewrite !list_lookup_fmap.
    destruct (tasks s !! j) as [r|] eqn:Hr; [|done]. simpl. f_equal.
    apply list_lookup_total_insert_ne. by intros ->.
  - intros Hcur. unfold rowsCurrent in Hcur. rewrite Hcur in Htask.
    destruct (taskListElement dom); [|done].
    split; [by rewrite list_lookup_fmap, Htask, <- (list_lookup_total_correct _ _ _ Ht)|].
    split; [by apply Hat|].
    intros j Hj. rewrite (Hat row Htask). by apply list_lookup_insert_ne.
Qed.

Lemma toggle_changes_one_flag_witness :
  ∃ o s' task t,
    dispatch fullPage smallStore (Change 0) milkTyped = (o, s')
    ∧ o = setOutcome smallStore (localStorage milkTyped)
            (JSON.stringify (taskValues s'))
    ∧ listItems milkTyped !! 0%nat = Some task ∧ heap milkTyped !! task = Some t
    ∧ heap s'
      = <[task := mkTask (description t) (negb (isCompleted t))]> (heap milkTyped)
    ∧ tasks s' = tasks milkTyped
    ∧ length (taskValues s') = length (taskValues milkTyped)
    ∧ (∀ j, tasks milkTyped !! j ≠ Some task →
            taskValues s' !! j = taskValues milkTyped !! j)
    ∧ (∀ j, tasks milkTyped !! j = Some task →
            taskValues s'
            = <[j := mkTask (description t) (negb (isCompleted t))]>
                (taskValues milkTyped))
    ∧ (rowsCurrent fullPage milkTyped →
       taskValues milkTyped !! 0%nat = Some t
       ∧ taskValues s'
         = <[0%nat := mkTask (description t) (negb (isCompleted t))]>
             (taskValues milkTyped)
       ∧ ∀ j, j ≠ 0%nat → taskValues s' !! j = taskValues milkTyped !! j).
Proof.
  apply (toggle_changes_one_flag fullPage smallStore milkTyped 0).
  - exact milkTyped_reachable.
  - simpl. lia.
Defined.

(** ** Loading what was stored *)

Lemma loadTasks_stringify (storage : gmap jsstring jsstring) ts :
  storage !! js "tasks" = Some (JSON.stringify ts) →
  loadTasks storage = Normal (JArray (jsonOfTask <$> ts)).
Proof.
  intros Hstored. unfold loadTasks. rewrite Hstored.
  by rewrite JSONFacts.parse_stringify.
Qed.

Lemma startup_stringify (dom : Dom) (storage : gmap jsstring jsstring) ts :
  storage !! js "tasks" = Some (JSON.stringify ts) →
  ∃ s0, startup dom storage = Some (Normal s0) ∧ taskValues s0 = ts.
Proof.
  intros Hstored. unfold startup.
  rewrite (loadTasks_stringify storage ts Hstored), JSONFacts.mapM_asTask.
  rewrite forEach_renderTask. eexists; split; [done|].
  unfold taskValues; cbn. apply values_seq.
Qed.

(** C7.  What [updateStorage] stores (when [setItem] does not throw, and
    then it is the serialization of the sequence), [loadTasks] decodes to
    one object per task of the sequence, with that task's description and
    flag, and the script started on that storage has the same sequence.  So
    it is for every storage that holds the serialization of a sequence, and
    for the snapshot [[{'description':'A','isCompleted':true}]] (written
    with apostrophes for the double quotes): the sequence is the one task
    with description A and flag true. *)
Theorem load_restores_persisted (dom : Dom) (canStore : policy) s :
  (∃ o s',
     updateStorage canStore s = (o, s')
     ∧ ((o = Normal tt
         ∧ loadTasks (localStorage s') = Normal (JArray (jsonOfTask <$> taskValues s))
         ∧ ∃ s0, startup dom (localStorage s') = Some (Normal s0)
                 ∧ taskValues s0 = taskValues s)
        ∨ (o = Throw QuotaExceededError ∧ localStorage s' = localStorage s
           ∧ canStore (localStorage s) (js "tasks")
               (JSON.stringify (taskValues s)) = false)))
  ∧ asTasks (JArray (jsonOfTask <$> taskValues s)) = Some (taskValues s)
  ∧ (∀ storage : gmap jsstring jsstring,
       storage !! js "tasks" = Some (JSON.stringify (taskValues s)) →
       loadTasks storage = Normal (JArray (jsonOfTask <$> taskValues s))
       ∧ ∃ s0, startup dom storage = Some (Normal s0)
               ∧ taskValues s0 = taskValues s)
  ∧ (let snapshot := jsq "[{'description':'A','isCompleted':true}]" in
     loadTasks {[ js "tasks" := snapshot ]}
     = Normal (JArray [jsonOfTask (mkTask (js "A") true)])
     ∧ ∃ s0, startup dom {[ js "tasks" := snapshot ]} = Some (Normal s0)
             ∧ taskValues s0 = [mkTask (js "A") true]).
Proof.
  split; [|split; [|split]].
  - rewrite updateStorage_eq. cbv zeta. returns. cbn [localStorage].
    destruct (outcome_cases canStore (localStorage s) (JSON.stringify (taskValues s)))
      as [(-> & _ & ->)|(-> & ? & ->)]; [left|by right].
    split; [done|].
    split; [apply loadTasks_stringify, lookup_insert_eq|].
    apply startup_stringify, lookup_insert_eq.
  - apply JSONFacts.mapM_asTask.
  - intros storage Hstored.
    split; [by apply loadTasks_stringify|by apply startup_stringify].
  - split; [reflexivity|].
    apply (startup_stringify dom _ [mkTask (js "A") true]). reflexivity.
Qed.

Lemma load_restores_persisted_witness :
  loadTasks {[ js "tasks" := JSON.stringify (taskValues milkTyped) ]}
  = Normal (JArray (jsonOfTask <$> taskValues milkTyped))
  ∧ ∃ s0, startup fullPage {[ js "tasks" := JSON.stringify (taskValues milkTyped) ]}
          = Some (Normal s0)
          ∧ taskValues s0 = taskValues milkTyped.
Proof.
  destruct (load_restores_persisted fullPage unlimited milkTyped) as (_ & _ & H & _).
  apply H. reflexivity.
Defined.

(** ** Missing elements *)

(** C8.  Whatever elements of the page are missing, no event makes a
    listener throw a TypeError (the one exception a listener can end in is
    the QuotaExceededError of [setItem], when the browser refuses the write
    of the sequence); the script's start fails on no
    storage on which it succeeds with the full page; and what would use the
    missing element is left out.  Without the form no listener is registered
    and a submit changes nothing.  Without the text field its value is never
    read or written: a submit adds nothing and stores nothing (the
    description is [undefined], so the alert is shown).  Without the list no
    row is attached, and [deleteTask] still removes and stores, without the
    re-rendering. *)
Theorem missing_elements_are_skipped (dom : Dom) (canStore : policy) s e :
  (∃ o s',
     dispatch dom canStore e s = (o, s')
     ∧ (o = Normal tt
        ∨ (o = Throw QuotaExceededError
           ∧ canStore (localStorage s) (js "tasks")
               (JSON.stringify (taskValues s')) = false))
     ∧ (taskForm dom = false → e = Submit → o = Normal tt ∧ s' = s)
     ∧ (formInput dom = false →
        inputValue s' = inputValue s
        ∧ (e = Submit →
           o = Normal tt
           ∧ heap s' = heap s ∧ tasks s' = tasks s ∧ localStorage s' = localStorage s
           ∧ setItemCalls s' = setItemCalls s))
     ∧ (taskListElement dom = false → listItems s' = listItems s))
  ∧ (∀ target, ∃ o s',
       deleteTask dom canStore target s = (o, s')
       ∧ (o = Normal tt
          ∨ (o = Throw QuotaExceededError
             ∧ canStore (localStorage s) (js "tasks")
                 (JSON.stringify (taskValues s')) = false))
       ∧ (taskListElement dom = false →
          listItems s' = listItems s ∧ created s' = created s
          ∧ ∃ s'', deleteTask fullPage canStore target s = (o, s'')
                   ∧ tasks s' = tasks s'' ∧ localStorage s' = localStorage s''))
  ∧ (∀ storage s0,
       startup fullPage storage = Some (Normal s0) →
       ∃ s0', startup dom storage = Some (Normal s0') ∧ taskValues s0' = taskValues s0).
Proof.
  assert (∀ storage value,
            setOutcome canStore storage value = Normal tt
            ∨ (setOutcome canStore storage value = Throw QuotaExceededError
               ∧ canStore storage (js "tasks") value = false)) as Hout.
  { intros. unfold setOutcome. destruct (canStore _ _ _); [by left|by right]. }
  split; [|split].
  - destruct e as [text| |row|row].
    + rewrite dispatch_Input. returns. split; [by left|].
      split; [done|]. split; [by intros ->|]. by destruct (formInput dom).
    + rewrite dispatch_Submit. destruct (taskForm dom).
      * rewrite onSubmit_eq. destruct (formInput dom) eqn:Hinput; simpl.
        -- destruct (truthy (inputValue s)).
           ++ rewrite submitTask_eq by done. cbv zeta. returns.
              split; [apply Hout|]. split; [done|]. split; [done|]. by intros ->.
           ++ rewrite alert_eq. returns. split; [by left|]. by repeat split.
        -- rewrite alert_eq. returns. split; [by left|]. by repeat split.
      * returns. split; [by left|]. by repeat split.
    + rewrite dispatch_Change. destruct (listItems s !! row) as [task|].
      * rewrite onChange_eq. cbv zeta. returns. split; [apply Hout|].
        by repeat split.
      * returns. split; [by left|]. by repeat split.
    + rewrite dispatch_Click. destruct (listItems s !! row) as [task|].
      * rewrite deleteTask_unfold. cbv zeta. destruct (negb _).
        -- returns. split; [apply Hout|]. split; [done|]. split; [done|].
           intros ->. by rewrite andb_false_r.
        -- returns. split; [by left|]. by repeat split.
      * returns. split; [by left|]. by repeat split.
  - intros target. rewrite !deleteTask_unfold. cbv zeta. destruct (negb _).
    + returns. split; [apply Hout|]. intros ->. rewrite andb_false_r.
      split; [done|]. split; [done|]. by eexists.
    + returns. split; [by left|]. intros _. split; [done|]. split; [done|].
      by eexists.
  - intros storage s0 (elements & ts & Hload & Hts & ->)%startup_inv.
    unfold startup. rewrite Hload, Hts, forEach_renderTask.
    eexists; split; [done|]. done.
Qed.

Lemma missing_elements_are_skipped_witness :
  dispatch (mkDom false true true) smallStore Submit milkTyped = (Normal tt, milkTyped)
  ∧ (∃ s', dispatch (mkDom true false true) smallStore Submit milkTyped
           = (Normal tt, s')
           ∧ tasks s' = tasks milkTyped ∧ setItemCalls s' = setItemCalls milkTyped)
  ∧ (∃ o s', deleteTask (mkDom true true false) smallStore 0 milkTyped = (o, s')
             ∧ listItems s' = listItems milkTyped ∧ created s' = created milkTyped).
Proof.
  split; [|split].
  - destruct (missing_elements_are_skipped (mkDom false true true) smallStore
                milkTyped Submit) as [(o & s' & Hrun & _ & Hform & _) _].
    rewrite Hrun. destruct (Hform eq_refl eq_refl) as [-> ->]. reflexivity.
  - destruct (missing_elements_are_skipped (mkDom true false true) smallStore
                milkTyped Submit) as [(o & s' & Hrun & _ & _ & Hinput & _) _].
    exists s'. destruct (Hinput eq_refl) as [_ Hsame].
    destruct (Hsame eq_refl) as (-> & _ & Htasks & _ & Hcalls). by split.
  - destruct (missing_elements_are_skipped (mkDom true true false) smallStore
                milkTyped Submit) as (_ & Hdel & _).
    destruct (Hdel 0%nat) as (o & s' & Hrun & _ & Hlist).
    exists o, s'. split; [exact Hrun|].
    destruct (Hlist eq_refl) as (Hrows & Hcreated & _). by split.
Defined.


(** * Further properties of the script *)

(** ** What one event does to the array and the storage *)

(** An event either leaves objects, array, storage and rows alone, or calls
    [setItem] once, last, with the array as it then is. *)
Lemma dispatch_quiet_or_calls (dom : Dom) (canStore : policy) e s :
  ∃ o s', dispatch dom canStore e s = (o, s')
          ∧ ((o = Normal tt
              ∧ heap s' = heap s ∧ tasks s' = tasks s
              ∧ localStorage s' = localStorage s
              ∧ setItemCalls s' = setItemCalls s ∧ listItems s' = listItems s)
             ∨ (setItemCalls s' = S (setItemCalls s)
                ∧ o = setOutcome canStore (localStorage s)
                        (JSON.stringify (taskValues s'))
                ∧ localStorage s'
                  = afterSet canStore (localStorage s)
                      (JSON.stringify (taskValues s')))).
Proof.
  destruct e as [text| |row|row].
  - rewrite dispatch_Input. returns. left. by destruct (formInput dom).
  - rewrite dispatch_Submit. destruct (taskForm dom); [|returns; by left].
    rewrite onSubmit_eq. destruct (formInput dom) eqn:Hinput; simpl.
    + destruct (truthy (inputValue s)).
      * rewrite submitTask_eq by done. cbv zeta. returns. by right.
      * rewrite alert_eq. returns. by left.
    + rewrite alert_eq. returns. by left.
  - rewrite dispatch_Change. destruct (listItems s !! row) as [task|].
    + rewrite onChange_eq. cbv zeta. returns. by right.
    + returns. by left.
  - rewrite dispatch_Click. destruct (listItems s !! row) as [task|].
    + rewrite deleteTask_unfold. cbv zeta. destruct (negb _).
      * returns. by right.
      * returns. by left.
    + returns. by left.
Qed.

Lemma setOutcome_Normal (canStore : policy) storage value :
  setOutcome canStore storage value = Normal tt →
  afterSet canStore storage value = <[js "tasks" := value]> storage.
Proof. unfold setOutcome, afterSet. by destruct (canStore _ _ _). Qed.

Lemma afterSet_cases (canStore : policy) storage value :
  afterSet canStore storage value = storage
  ∨ afterSet canStore storage value = <[js "tasks" := value]> storage.
Proof. unfold afterSet. destruct (canStore _ _ _); [by right|by left]. Qed.

Lemma setOutcome_cases (canStore : policy) storage value :
  setOutcome canStore storage value = Normal tt
  ∨ setOutcome canStore storage value = Throw QuotaExceededError.
Proof. unfold setOutcome. destruct (canStore _ _ _); [by left|by right]. Qed.

(** A run without exception: nothing was written and the array is as
    before, or the snapshot is the serialization of the array. *)
Lemma run_quiet_or_written (dom : Dom) (canStore : policy) es s s' :
  run dom canStore es s = ([], s') →
  (heap s' = heap s ∧ tasks s' = tasks s ∧ localStorage s' = localStorage s
   ∧ setItemCalls s' = setItemCalls s)
  ∨ ((setItemCalls s < setItemCalls s')%nat ∧ persisted s').
Proof.
  revert s. induction es as [|e es IH]; intros s.
  - intros [= <-]. by left.
  - intros (s1 & Hstep & Hrun)%run_quiet_cons.
    destruct (dispatch_quiet_or_calls dom canStore e s) as (o & s1' & Hstep' & Heff).
    rewrite Hstep in Hstep'. injection Hstep' as <- <-.
    destruct (IH s1 Hrun) as [(Hh & Ht & Hl & Hc)|[Hc Hp]].
    + destruct Heff as [(_ & Hh1 & Ht1 & Hl1 & Hc1 & _)|(Hc1 & Ho & Hl1)].
      * left. by rewrite Hh, Ht, Hl, Hc.
      * right. split; [lia|]. unfold persisted.
        assert (taskValues s' = taskValues s1) as ->
          by (unfold taskValues; by rewrite Hh, Ht).
        rewrite Hl, Hl1, (setOutcome_Normal _ _ _ (eq_sym Ho)).
        apply lookup_insert_eq.
    + right. split; [|done].
      destruct Heff as [(_ & _ & _ & _ & Hc1 & _)|(Hc1 & _)]; lia.
Qed.

(** X1.  In every state the page can reach, the array holds each object
    once and only allocated objects.  With a list element, every element of
    the array has a row, in the array's order, and no two rows hold the same
    object; without one there is no row.  After a run in which no listener
    threw, the rows are exactly the elements of the array, in order.  (A
    delete whose [setItem] throws skips the re-rendering and leaves the row
    of the task it removed.) *)
Theorem rows_mirror_the_array (dom : Dom) (canStore : policy) storage s0 es :
  startup dom storage = Some (Normal s0) →
  let errors := (run dom canStore es s0).1 in
  let s := (run dom canStore es s0).2 in
  NoDup (tasks s)
  ∧ Forall (fun r => is_Some (heap s !! r)) (tasks s)
  ∧ length (taskValues s) = length (tasks s)
  ∧ (if taskListElement dom
     then sublist (tasks s) (listItems s) ∧ NoDup (listItems s)
     else listItems s = [])
  ∧ (errors = [] → listItems s = if taskListElement dom then tasks s else []).
Proof.
  intros Hstart. cbv zeta.
  destruct (consistent_startup dom storage s0 Hstart) as [Hs0 Hcur0].
  destruct (consistent_run dom canStore es s0 Hs0) as (Hvalid & Hnd & Hrows).
  split; [done|]. split; [|split; [|split]].
  - eapply Forall_impl; [exact Hvalid|]. intros r Hr. by apply lookup_lt_is_Some_2.
  - unfold taskValues. by rewrite length_fmap.
  - destruct (taskListElement dom); [|done]. by destruct Hrows as (? & ? & _).
  - destruct (run dom canStore es s0) as [errors s] eqn:Hrun. cbn [fst snd].
    intros ->. by apply (current_run dom canStore es s0 s Hcur0).
Qed.

Lemma rows_mirror_the_array_witness :
  let errors := (run fullPage smallStore [Input (js "Buy milk"); Submit] freshPage).1 in
  let s := (run fullPage smallStore [Input (js "Buy milk"); Submit] freshPage).2 in
  NoDup (tasks s)
  ∧ Forall (fun r => is_Some (heap s !! r)) (tasks s)
  ∧ length (taskValues s) = length (tasks s)
  ∧ (if taskListElement fullPage
     then sublist (tasks s) (listItems s) ∧ NoDup (listItems s)
     else listItems s = [])
  ∧ (errors = [] → listItems s = if taskListElement fullPage then tasks s else []).
Proof.
  apply (rows_mirror_the_array fullPage smallStore ∅ freshPage
           [Input (js "Buy milk"); Submit]).
  reflexivity.
Defined.

(** X2.  From the start of the script on, for as long as no listener has
    thrown: either [setItem] has not been called, and the storage is the one
    found at the start and the sequence the one loaded; or it has, and the
    snapshot under ['tasks'] is the serialization of the array. *)
Theorem snapshot_current_once_written (dom : Dom) (canStore : policy) storage s0 es s :
  startup dom storage = Some (Normal s0) → run dom canStore es s0 = ([], s) →
  (setItemCalls s = 0%nat ∧ localStorage s = storage ∧ taskValues s = taskValues s0)
  ∨ ((0 < setItemCalls s)%nat ∧ persisted s).
Proof.
  intros (elements & ts & _ & _ & ->)%startup_inv Hrun.
  destruct (run_quiet_or_written dom canStore es _ s Hrun)
    as [(Hh & Ht & Hl & Hc)|[Hc Hp]].
  - left. unfold taskValues. by rewrite Hh, Ht, Hl, Hc.
  - right. split; [|done]. simpl in Hc. lia.
Qed.

Lemma snapshot_current_once_written_witness :
  (setItemCalls milkTyped = 0%nat ∧ localStorage milkTyped = ∅
   ∧ taskValues milkTyped = taskValues freshPage)
  ∨ ((0 < setItemCalls milkTyped)%nat ∧ persisted milkTyped).
Proof.
  apply (snapshot_current_once_written fullPage smallStore ∅ freshPage
           [Input (js "Buy milk"); Submit; Input (js "Buy milk")] milkTyped).
  - reflexivity.
  - vm_compute. reflexivity.
Defined.

Lemma startup_values (dom : Dom) storage s0 :
  startup dom storage = Some (Normal s0) →
  ∀ dom' : Dom, ∃ s1, startup dom' storage = Some (Normal s1)
                      ∧ taskValues s1 = taskValues s0.
Proof.
  intros (elements & ts & Hload & Hts & ->)%startup_inv dom'.
  unfold startup. rewrite Hload, Hts, forEach_renderTask. by eexists.
Qed.

(** The snapshot is the one found at the start or one the script wrote. *)
Lemma run_snapshot (dom : Dom) (canStore : policy) es s :
  localStorage (run dom canStore es s).2 = localStorage s
  ∨ ∃ ts, localStorage (run dom canStore es s).2 !! js "tasks"
          = Some (JSON.stringify ts).
Proof.
  revert s. induction es as [|e es IH]; intros s; [by left|].
  rewrite run_snd.
  destruct (dispatch_quiet_or_calls dom canStore e s) as (o & s1 & Hstep & Heff).
  rewrite Hstep. cbn [snd].
  destruct (IH s1) as [Hsame|Hwritten]; [|by right].
  rewrite Hsame. destruct Heff as [(_ & _ & _ & Hl & _)|(_ & _ & Hl)].
  - left. by rewrite Hl.
  - rewrite Hl. destruct (afterSet_cases canStore (localStorage s)
                            (JSON.stringify (taskValues s1))) as [->| ->].
    + by left.
    + right. eexists. apply lookup_insert_eq.
Qed.

(** X3.  The script never leaves a snapshot it cannot load: started again on
    the storage as it is in any reachable state (on a page with any of the
    elements), it loads without error.  After a run in which no listener
    threw, it loads the very sequence that state has. *)
Theorem reload_shows_same_tasks (dom dom' : Dom) (canStore : policy) storage s0 es :
  startup dom storage = Some (Normal s0) →
  let errors := (run dom canStore es s0).1 in
  let s := (run dom canStore es s0).2 in
  ∃ s1, startup dom' (localStorage s) = Some (Normal s1)
        ∧ (errors = [] → taskValues s1 = taskValues s).
Proof.
  intros Hstart. cbv zeta.
  destruct (startup_values dom storage s0 Hstart dom') as (s1 & Hs1 & Hv1).
  destruct (run dom canStore es s0) as [errors s] eqn:Hrun. cbn [fst snd].
  assert (localStorage s0 = storage) as Hl0.
  { apply startup_inv in Hstart as (elements & ts & _ & _ & ->). done. }
  destruct (decide (errors = [])) as [->|Herr].
  - destruct (run_quiet_or_written dom canStore es s0 s Hrun)
      as [(Hh & Ht & Hl & _)|[_ Hp]].
    + exists s1. rewrite Hl, Hl0. split; [exact Hs1|]. intros _.
      rewrite Hv1. unfold taskValues. by rewrite Hh, Ht.
    + destruct (startup_stringify dom' _ _ Hp) as (s2 & Hs2 & Hv2).
      by exists s2.
  - pose proof (run_snapshot dom canStore es s0) as Hsnap.
    rewrite Hrun in Hsnap. cbn [snd] in Hsnap.
    destruct Hsnap as [Hsame|[ts Hts]].
    + exists s1. rewrite Hsame, Hl0. by split.
    + destruct (startup_stringify dom' _ _ Hts) as (s2 & Hs2 & _).
      exists s2. by split.
Qed.

Lemma reload_shows_same_tasks_witness :
  let errors :=
    (run fullPage smallStore [Input (js "Buy milk"); Submit] freshPage).1 in
  let s := (run fullPage smallStore [Input (js "Buy milk"); Submit] freshPage).2 in
  ∃ s1, startup (mkDom false false false) (localStorage s) = Some (Normal s1)
        ∧ (errors = [] → taskValues s1 = taskValues s).
Proof.
  apply (reload_shows_same_tasks fullPage (mkDom false false false) smallStore ∅
           freshPage [Input (js "Buy milk"); Submit]).
  reflexivity.
Defined.

(** X4.  The one exception a listener can end in is the QuotaExceededError
    of [setItem].  A run calls [setItem] at most once per event, throws at
    most once per call, and leaves every key of the storage other than
    ['tasks'] as it was. *)
Theorem only_the_tasks_key_is_written (dom : Dom) (canStore : policy) es s :
  let errors := (run dom canStore es s).1 in
  let s' := (run dom canStore es s).2 in
  Forall (fun x => x = QuotaExceededError) errors
  ∧ (setItemCalls s + length errors ≤ setItemCalls s' ≤ setItemCalls s + length es)%nat
  ∧ ∀ k, k ≠ js "tasks" → localStorage s' !! k = localStorage s !! k.
Proof.
  cbv zeta. revert s. induction es as [|e es IH]; intros s.
  - cbn. split; [done|]. split; [lia|done].
  - rewrite run_cons_eq.
    destruct (dispatch_quiet_or_calls dom canStore e s) as (o & s1 & -> & Hstep).
    destruct (IH s1) as (Herr & Hcalls & Hkeys).
    assert (∀ k, k ≠ js "tasks" → localStorage s1 !! k = localStorage s !! k) as Hk1.
    { intros k Hk. destruct Hstep as [(_ & _ & _ & -> & _)|(_ & _ & ->)]; [done|].
      destruct (afterSet_cases canStore (localStorage s)
                  (JSON.stringify (taskValues s1))) as [->| ->]; [done|].
      by apply lookup_insert_ne. }
    destruct Hstep as [(-> & _ & _ & _ & Hc & _)|(Hc & -> & _)].
    + split; [done|]. cbn [length]. split; [lia|].
      intros k Hk. rewrite Hkeys by done. by apply Hk1.
    + destruct (setOutcome_cases canStore (localStorage s)
                  (JSON.stringify (taskValues s1))) as [->| ->].
      * split; [done|]. cbn [length]. split; [lia|].
        intros k Hk. rewrite Hkeys by done. by apply Hk1.
      * destruct (run dom canStore es s1) as [errors s'] eqn:Hrun.
        cbn [fst snd length] in *. split; [by constructor|]. split; [lia|].
        intros k Hk. rewrite Hkeys by done. by apply Hk1.
Qed.

Lemma dispatch_keeps_descriptions (dom : Dom) (canStore : policy) e s :
  ∀ r t, heap s !! r = Some t →
         ∃ t', heap (dispatch dom canStore e s).2 !! r = Some t'
               ∧ description t' = description t.
Proof.
  intros r t Hr. destruct e as [text| |row|row].
  - rewrite dispatch_Input. cbn [snd]. exists t. by destruct (formInput dom).
  - rewrite dispatch_Submit. destruct (taskForm dom); [|by exists t].
    rewrite onSubmit_eq. destruct (formInput dom) eqn:Hinput; cbn [andb];
      [|by exists t].
    destruct (truthy (inputValue s)); [|by exists t].
    rewrite submitTask_eq by done. cbv zeta. cbn [snd heap].
    exists t. split; [|done]. by apply lookup_app_l_Some.
  - rewrite dispatch_Change. destruct (listItems s !! row) as [task|]; [|by exists t].
    rewrite onChange_eq. cbv zeta. cbn [snd heap].
    destruct (decide (task = r)) as [->|Hne].
    + exists (toggled t). rewrite (list_lookup_total_correct _ _ _ Hr).
      split; [|done]. apply list_lookup_insert_eq. by eapply lookup_lt_Some.
    + exists t. by rewrite list_lookup_insert_ne.
  - rewrite dispatch_Click. destruct (listItems s !! row) as [task|]; [|by exists t].
    rewrite deleteTask_unfold. cbv zeta. destruct (negb _); by exists t.
Qed.

(** X5.  The text of a task never changes: after any run of events, every
    object that existed before still exists, under the same reference, with
    the description it had.  (No object is ever removed from the store; a
    delete only takes the reference out of the array.) *)
Theorem descriptions_never_change (dom : Dom) (canStore : policy) es s :
  ∀ r t, heap s !! r = Some t →
         ∃ t', heap (run dom canStore es s).2 !! r = Some t'
               ∧ description t' = description t.
Proof.
  revert s. induction es as [|e es IH]; intros s r t Hr.
  - by exists t.
  - rewrite run_snd.
    destruct (dispatch_keeps_descriptions dom canStore e s r t Hr) as (t1 & Hr1 & Hd1).
    destruct (IH _ r t1 Hr1) as (t' & Hr' & Hd').
    exists t'. split; [done|]. by rewrite Hd', Hd1.
Qed.

Lemma descriptions_never_change_witness :
  ∃ t', heap (run fullPage smallStore [Change 0; Input (js "Buy milk"); Submit]
                milkTyped).2 !! 0%nat = Some t'
        ∧ description t' = description (mkTask (js "Buy milk") false).
Proof.
  apply (descriptions_never_change fullPage smallStore
           [Change 0; Input (js "Buy milk"); Submit] milkTyped 0%nat
           (mkTask (js "Buy milk") false)).
  reflexivity.
Defined.

(** ** Deleting from a row *)

(** X6.  In every state the page can reach, a press on the delete button of
    a row removes from the sequence the first task equal to the task the row
    holds (same description, same flag), if there is one, and nothing
    otherwise.  When the write that follows succeeds the rows are rendered
    again from the array; when it throws they are left as they were.  While
    the rows are the array's there is such a task, at or above the row, and
    it is the row's own when no task above the row equals it. *)
Theorem delete_press_removes_first_equal (dom : Dom) (canStore : policy) s row :
  reachable dom canStore s → (row < length (listItems s))%nat →
  ∃ o s' task t,
    dispatch dom canStore (Click row) s = (o, s')
    ∧ listItems s !! row = Some task ∧ heap s !! task = Some t
    ∧ (((t ∉ taskValues s) ∧ ¬ rowsCurrent dom s ∧ o = Normal tt ∧ s' = s)
       ∨ (∃ k,
            taskValues s !! k = Some t
            ∧ (∀ j, (j < k)%nat → taskValues s !! j ≠ Some t)
            ∧ taskValues s' = delete k (taskValues s)
            ∧ ((o = Normal tt ∧ listItems s' = tasks s')
               ∨ (o = Throw QuotaExceededError ∧ listItems s' = listItems s))
            ∧ (rowsCurrent dom s →
               (k ≤ row)%nat
               ∧ ((∀ j, (j < row)%nat → taskValues s !! j ≠ Some t) →
                  taskValues s' = delete row (taskValues s))))).
Proof.
  intros Hs%reachable_consistent Hrow.
  destruct (lookup_lt_is_Some_2 _ _ Hrow) as [task Htask].
  assert (taskListElement dom = true ∧ (task < length (heap s))%nat) as [Hlist Hlt].
  { destruct Hs as (_ & _ & Hrows). destruct (taskListElement dom).
    - destruct Hrows as (_ & _ & Hv). split; [done|].
      by eapply (Forall_lookup_1 _ _ _ _ Hv).
    - by rewrite Hrows in Htask. }
  destruct (lookup_lt_is_Some_2 _ _ Hlt) as [t Ht].
  pose proof (list_lookup_total_correct _ _ _ Ht) as Htotal.
  rewrite dispatch_Click, Htask.
  destruct (decide (findIndex (sameTaskb (heap s !!! task)) (taskValues s) = (-1)%Z))
    as [Hmiss|Hhit].
  { rewrite (deleteTask_miss dom canStore task s Hmiss).
    exists (Normal tt), s, task, t. split; [done|]. split; [done|]. split; [done|].
    left. split; [|split; [|done]].
    - intros Hin. apply findIndex_none in Hmiss. rewrite Htotal in Hmiss.
      eapply Forall_forall in Hmiss; [|exact Hin]. simpl in Hmiss.
      by rewrite sameTaskb_refl in Hmiss.
    - intros Hcur. by destruct (row_is_found dom s row task Hs Hcur Htask). }
  destruct (deleteTask_hit dom canStore task s Hhit)
    as (before & r & after & Htasks & Hr & Hbefore & ->).
  rewrite Htotal in Hr, Hbefore. apply sameTask_eq in Hr.
  assert (∀ j, (j < length before)%nat → taskValues s !! j ≠ Some t) as Hfirst.
  { intros j Hj. unfold taskValues. rewrite list_lookup_fmap, Htasks, lookup_app_l by done.
    destruct (before !! j) as [r'|] eqn:Hr'; [|done]. simpl. intros [= Heq].
    eapply Forall_lookup_1 in Hbefore; [|exact Hr']. apply Hbefore.
    by apply sameTask_eq. }
  assert (taskValues s !! length before = Some t) as Hvk.
  { unfold taskValues. rewrite list_lookup_fmap, Htasks, list_lookup_middle by done.
    simpl. by rewrite Hr. }
  assert ((fun r => heap s !!! r) <$> before ++ after
          = delete (length before) (taskValues s)) as Hvalues.
  { unfold taskValues. rewrite Htasks, !fmap_app, fmap_cons.
    rewrite <- (length_fmap (fun r => heap s !!! r) before).
    by rewrite delete_middle. }
  cbv zeta. rewrite Hlist, andb_true_r.
  eexists _, _, task, t. split; [reflexivity|]. split; [done|]. split; [done|].
  right. exists (length before).
  unfold taskValues at 3. cbn [heap tasks listItems]. rewrite Hvalues.
  split; [done|]. split; [done|]. split; [done|]. split.
  { unfold setOutcome. destruct (canStore _ _ _); [by left|by right]. }
  intros Hcur. destruct (row_is_found dom s row task Hs Hcur Htask) as [Hin _].
  assert (taskValues s !! row = Some t) as Hvrow.
  { unfold taskValues. rewrite list_lookup_fmap, Hin. simpl. by rewrite Htotal. }
  assert (length before ≤ row)%nat as Hk.
  { destruct (decide (length before ≤ row)%nat); [done|].
    exfalso. apply (Hfirst row); [lia|done]. }
  split; [done|]. intros Hnone.
  replace row with (length before); [done|].
  destruct (decide (length before = row)) as [|Hne]; [done|].
  exfalso. apply (Hnone (length before)); [lia|done].
Qed.

Lemma delete_press_removes_first_equal_witness :
  ∃ o s' task t,
    dispatch fullPage smallStore (Click 0) milkTyped = (o, s')
    ∧ listItems milkTyped !! 0%nat = Some task ∧ heap milkTyped !! task = Some t
    ∧ (((t ∉ taskValues milkTyped) ∧ ¬ rowsCurrent fullPage milkTyped
        ∧ o = Normal tt ∧ s' = milkTyped)
       ∨ (∃ k,
            taskValues milkTyped !! k = Some t
            ∧ (∀ j, (j < k)%nat → taskValues milkTyped !! j ≠ Some t)
            ∧ taskValues s' = delete k (taskValues milkTyped)
            ∧ ((o = Normal tt ∧ listItems s' = tasks s')
               ∨ (o = Throw QuotaExceededError ∧ listItems s' = listItems milkTyped))
            ∧ (rowsCurrent fullPage milkTyped →
               (k ≤ 0)%nat
               ∧ ((∀ j, (j < 0)%nat → taskValues milkTyped !! j ≠ Some t) →
                  taskValues s' = delete 0%nat (taskValues milkTyped))))).
Proof.
  apply (delete_press_removes_first_equal fullPage smallStore milkTyped 0).
  - exact milkTyped_reachable.
  - simpl. lia.
Defined.

(** X7.  On a page without the list element nothing can be ticked or
    deleted: in every reachable state a tick or a press, on whatever row,
    finds no row and leaves the state as it is.  (Tasks are still added and
    stored.) *)
Theorem no_list_no_toggle_no_delete (dom : Dom) (canStore : policy) s row :
  reachable dom canStore s → taskListElement dom = false →
  listItems s = []
  ∧ dispatch dom canStore (Change row) s = (Normal tt, s)
  ∧ dispatch dom canStore (Click row) s = (Normal tt, s).
Proof.
  intros (_ & _ & Hrows)%reachable_consistent Hlist.
  rewrite Hlist in Hrows. rewrite dispatch_Change, dispatch_Click, Hrows.
  by rewrite lookup_nil.
Qed.

Lemma no_list_no_toggle_no_delete_witness :
  let s := mkState [mkTask (js "A") false] [0%nat]
             {[ keyTasks := jsq "[{'description':'A','isCompleted':false}]" ]}
             [] [] [] 1 1 in
  listItems s = []
  ∧ dispatch (mkDom true true false) smallStore (Change 0) s = (Normal tt, s)
  ∧ dispatch (mkDom true true false) smallStore (Click 0) s = (Normal tt, s).
Proof.
  apply (no_list_no_toggle_no_delete (mkDom true true false) smallStore);
    [|reflexivity].
  apply (run_reachable (mkDom true true false) smallStore ∅ freshPage
           [Input (js "A"); Submit]).
  - reflexivity.
  - vm_compute. reflexivity.
Defined.

(** ** Submitting again, and the alert *)

(** X8.  The field is emptied only after the write (line 52 follows line
    51).  Of two submits in a row, with text in the field before the first:
    when the first write succeeds, the first submit adds the task and the
    second shows the alert and adds nothing; when the first write throws,
    the text stays in the field and the second submit adds the task a second
    time. *)
Theorem second_submit_only_alerts (dom : Dom) (canStore : policy) s :
  taskForm dom = true → formInput dom = true → inputValue s ≠ [] → refsValid s →
  let new := mkTask (inputValue s) false in
  let stored :=
    canStore (localStorage s) (js "tasks") (JSON.stringify (taskValues s ++ [new])) in
  (stored = true →
   ∃ s', run dom canStore [Submit; Submit] s = ([], s')
         ∧ taskValues s' = taskValues s ++ [new]
         ∧ inputValue s' = []
         ∧ alerts s' = alerts s ++ [js "Please enter a task description"]
         ∧ setItemCalls s' = S (setItemCalls s))
  ∧ (stored = false →
     ∃ errors s', run dom canStore [Submit; Submit] s
                  = (QuotaExceededError :: errors, s')
                  ∧ taskValues s' = taskValues s ++ [new; new]
                  ∧ alerts s' = alerts s
                  ∧ setItemCalls s' = S (S (setItemCalls s))).
Proof.
  intros Hform Hinput Htext Hvalid. cbv zeta.
  assert (truthy (inputValue s) = true) as Htruthy by (by destruct (inputValue s)).
  assert ((fun r => (heap s ++ [mkTask (inputValue s) false]) !!! r)
            <$> (tasks s ++ [length (heap s)])
          = taskValues s ++ [mkTask (inputValue s) false]) as Hvalues.
  { rewrite fmap_app, values_alloc by done. simpl. by rewrite lookup_total_new. }
  rewrite run_cons_eq, dispatch_Submit, Hform, onSubmit_eq, Hinput, Htruthy.
  cbn [andb]. rewrite submitTask_eq by done. cbv zeta. rewrite Hvalues.
  unfold setOutcome, afterSet. split; intros ->.
  - rewrite run_cons_eq, dispatch_Submit, Hform, onSubmit_eq, Hinput. cbn.
    eexists. split; [reflexivity|]. unfold taskValues at 1. cbn.
    by rewrite Hvalues.
  - set (s1 := mkState _ _ _ _ _ _ _ _).
    assert (refsValid s1) as Hvalid1.
    { unfold refsValid, s1. cbn. rewrite length_app. cbn.
      apply Forall_app; split.
      - eapply Forall_impl; [exact Hvalid|]. intros; simpl in *; lia.
      - constructor; [lia|constructor]. }
    assert (taskValues s1 = taskValues s ++ [mkTask (inputValue s) false]) as Hv1
      by exact Hvalues.
    rewrite run_cons_eq, dispatch_Submit, Hform, onSubmit_eq, Hinput.
    change (inputValue s1) with (inputValue s). rewrite Htruthy. cbn [andb].
    rewrite submitTask_eq by done. cbv zeta.
    assert ((fun r => (heap s1 ++ [mkTask (inputValue s) false]) !!! r)
              <$> (tasks s1 ++ [length (heap s1)])
            = taskValues s ++ [mkTask (inputValue s) false; mkTask (inputValue s) false])
      as Hvalues2.
    { rewrite fmap_app, (values_alloc _ _ _ Hvalid1). fold (taskValues s1).
      cbn [fmap list_fmap]. by rewrite lookup_total_new, Hv1, <- app_assoc. }
    destruct (setOutcome canStore (localStorage s1) _); cbn [run];
      (eexists _, _; split; [reflexivity|]; split; [exact Hvalues2|done]).
Qed.

Lemma second_submit_only_alerts_witness :
  ∃ errors s', run fullPage smallStore [Submit; Submit] milkTyped
               = (QuotaExceededError :: errors, s')
               ∧ taskValues s'
                 = taskValues milkTyped
                     ++ [mkTask (inputValue milkTyped) false;
                         mkTask (inputValue milkTyped) false]
               ∧ alerts s' = alerts milkTyped
               ∧ setItemCalls s' = S (S (setItemCalls milkTyped)).
Proof.
  destruct (second_submit_only_alerts fullPage smallStore milkTyped) as [_ H];
    [reflexivity|reflexivity|discriminate|repeat constructor|].
  apply H. reflexivity.
Defined.

(** X9.  The alert is shown by one event only: a submit that reaches the
    listener and finds no text (an empty field, or no field).  Then exactly
    the one message is added and the listener returns; every other event
    shows no alert, and its listener returns unless the browser refuses the
    write of the sequence. *)
Theorem alert_exactly_on_rejected_submit (dom : Dom) (canStore : policy) e s :
  ∃ o s', dispatch dom canStore e s = (o, s')
          ∧ ((e = Submit ∧ taskForm dom = true
              ∧ (formInput dom = false ∨ inputValue s = [])
              ∧ o = Normal tt
              ∧ alerts s' = alerts s ++ [js "Please enter a task description"]
              ∧ taskValues s' = taskValues s)
             ∨ (¬ (e = Submit ∧ taskForm dom = true
                   ∧ (formInput dom = false ∨ inputValue s = []))
                ∧ alerts s' = alerts s
                ∧ (o = Normal tt
                   ∨ (o = Throw QuotaExceededError
                      ∧ canStore (localStorage s) (js "tasks")
                          (JSON.stringify (taskValues s')) = false)))).
Proof.
  assert (∀ storage value,
            setOutcome canStore storage value = Normal tt
            ∨ (setOutcome canStore storage value = Throw QuotaExceededError
               ∧ canStore storage (js "tasks") value = false)) as Hout.
  { intros. unfold setOutcome. destruct (canStore _ _ _); [by left|by right]. }
  destruct e as [text| |row|row].
  - rewrite dispatch_Input. returns. right. split; [by intros [? _]|].
    split; [by destruct (formInput dom)|by left].
  - rewrite dispatch_Submit. destruct (taskForm dom).
    + rewrite onSubmit_eq. destruct (formInput dom) eqn:Hinput; cbn [andb].
      * destruct (inputValue s) as [|c text] eqn:Htext; cbn [truthy].
        -- rewrite alert_eq. returns. left.
           split; [done|]. split; [done|]. split; [by right|]. by split.
        -- rewrite <- Htext, submitTask_eq by done. cbv zeta. returns. right.
           split; [rewrite Htext; by intros (_ & _ & [|])|].
           split; [done|apply Hout].
      * rewrite alert_eq. returns. left.
        split; [done|]. split; [done|]. split; [by left|]. by split.
    + returns. right. split; [by intros (_ & ? & _)|]. split; [done|by left].
  - rewrite dispatch_Change. destruct (listItems s !! row) as [task|].
    + rewrite onChange_eq. cbv zeta. returns. right. split; [by intros [? _]|].
      split; [done|apply Hout].
    + returns. right. split; [by intros [? _]|]. split; [done|by left].
  - rewrite dispatch_Click. destruct (listItems s !! row) as [task|].
    + rewrite deleteTask_unfold. cbv zeta.
      destruct (negb _); returns; right; (split; [by intros [? _]|]);
        (split; [done|]); [apply Hout|by left].
    + returns. right. split; [by intros [? _]|]. split; [done|by left].
Qed.

Lemma alert_exactly_on_rejected_submit_witness :
  ∃ s', dispatch (mkDom true false true) smallStore Submit milkTyped = (Normal tt, s')
        ∧ alerts s' = [js "Please enter a task description"]
        ∧ taskValues s' = taskValues milkTyped.
Proof.
  destruct (alert_exactly_on_rejected_submit (mkDom true false true) smallStore
              Submit milkTyped)
    as (o & s' & Hrun & [(_ & _ & _ & -> & Halerts & Hvalues)|[Hnot _]]).
  - exists s'. by split.
  - exfalso. apply Hnot. split; [done|]. split; [done|]. by left.
Defined.

(** ** Adding and then deleting *)

(** X10.  On a page with form, field and list, in a reachable state whose
    sequence holds no task equal to [{description: d, isCompleted: false}],
    adding [d] and then pressing delete on the new (last) row gives back the
    array and the sequence as they were, also when a write throws.  When no
    listener threw, the rows are the elements of the array again. *)
Theorem add_then_delete_restores (dom : Dom) (canStore : policy) s :
  reachable dom canStore s →
  taskForm dom = true → formInput dom = true → taskListElement dom = true →
  inputValue s ≠ [] → mkTask (inputValue s) false ∉ taskValues s →
  ∃ errors s',
    run dom canStore [Submit; Click (length (listItems s))] s = (errors, s')
    ∧ tasks s' = tasks s ∧ taskValues s' = taskValues s
    ∧ (errors = [] → listItems s' = tasks s).
Proof.
  intros (Hvalid & Hnd & Hrows)%reachable_consistent Hform Hinput Hlist Htext Hfresh.
  rewrite Hlist in Hrows. destruct Hrows as (_ & _ & Hvalid').
  rewrite run_cons_eq, dispatch_Submit, Hform, onSubmit_eq, Hinput.
  assert (truthy (inputValue s) = true) as -> by (by destruct (inputValue s)).
  cbn [andb]. rewrite submitTask_eq by done. cbv zeta. rewrite Hlist.
  set (new := mkTask (inputValue s) false).
  set (o1 := setOutcome _ _ _).
  set (s1 := mkState _ _ _ _ _ _ _ _).
  assert (taskValues s1 = taskValues s ++ [new]) as Hvalues1.
  { unfold taskValues, s1. cbn [heap tasks].
    rewrite fmap_app, values_alloc by done. simpl. by rewrite lookup_total_new. }
  assert (heap s1 !!! length (heap s) = new) as Hnew by apply lookup_total_new.
  assert (findIndex (sameTaskb (heap s1 !!! length (heap s))) (taskValues s1) ≠ (-1)%Z)
    as Hfound.
  { rewrite Hnew, Hvalues1. intros Hnone%findIndex_none.
    apply Forall_app in Hnone as [_ Hnone]. apply Forall_cons in Hnone as [Hnone _].
    by rewrite sameTaskb_refl in Hnone. }
  assert (dispatch dom canStore (Click (length (listItems s))) s1
          = deleteTask dom canStore (length (heap s)) s1) as Hclick.
  { rewrite dispatch_Click. unfold s1 at 1. cbn [listItems].
    by rewrite list_lookup_middle. }
  destruct (deleteTask_hit dom canStore (length (heap s)) s1 Hfound)
    as (before & r & after & Htasks & Hr & Hbefore & Hdel).
  rewrite Hnew in Hr, Hbefore. apply sameTask_eq in Hr.
  assert (after = [] ∧ before = tasks s) as [-> ->].
  { destruct after as [|r' after _] using rev_ind.
    - change (tasks s1) with (tasks s ++ [length (heap s)]) in Htasks.
      apply app_inj_tail in Htasks as [-> _]. done.
    - exfalso.
      change (tasks s1) with (tasks s ++ [length (heap s)]) in Htasks.
      replace (before ++ r :: after ++ [r']) with ((before ++ r :: after) ++ [r'])
        in Htasks by (by rewrite <- app_assoc).
      apply app_inj_tail in Htasks as [Htasks _].
      apply Hfresh. unfold taskValues. rewrite Htasks.
      apply list_elem_of_fmap. exists r. split.
      + etrans; [symmetry; exact Hr|]. unfold s1; cbn [heap]. apply lookup_total_alloc.
        eapply Forall_forall in Hvalid; [exact Hvalid|].
        rewrite Htasks. set_solver.
      + set_solver. }
  rewrite app_nil_r in Hdel. cbv zeta in Hdel. rewrite Hlist, andb_true_r in Hdel.
  assert ((fun r => heap s1 !!! r) <$> tasks s = taskValues s) as Hback
    by (by apply values_alloc).
  destruct o1 eqn:Ho1.
  - rewrite run_cons_eq, Hclick, Hdel.
    destruct (setOutcome canStore (localStorage s1) _) eqn:Ho2; cbn [run].
    + eexists _, _. split; [reflexivity|]. split; [done|]. split; [exact Hback|].
      intros _. cbn [listItems].
      assert (∀ storage value u, setOutcome canStore storage value = Normal u →
                canStore storage (js "tasks") value = true) as Hok.
      { intros storage value u. unfold setOutcome.
        by destruct (canStore storage (js "tasks") value). }
      by rewrite (Hok _ _ _ Ho2).
    + eexists _, _. split; [reflexivity|]. split; [done|]. by split.
  - rewrite run_cons_eq, Hclick, Hdel.
    destruct (setOutcome canStore (localStorage s1) _) eqn:Ho2; cbn [run].
    + eexists _, _. split; [reflexivity|]. split; [done|]. by split.
    + eexists _, _. split; [reflexivity|]. split; [done|]. by split.
Qed.

Lemma add_then_delete_restores_witness :
  let s := mkState [] [] ∅ (js "Buy milk") [] [] 0 0 in
  ∃ errors s',
    run fullPage smallStore [Submit; Click (length (listItems s))] s = (errors, s')
    ∧ tasks s' = tasks s ∧ taskValues s' = taskValues s
    ∧ (errors = [] → listItems s' = tasks s).
Proof.
  apply (add_then_delete_restores fullPage smallStore
           (mkState [] [] ∅ (js "Buy milk") [] [] 0 0));
    [|reflexivity|reflexivity|reflexivity|discriminate|apply not_elem_of_nil].
  apply (run_reachable fullPage smallStore ∅ freshPage [Input (js "Buy milk")]);
    reflexivity.
Defined.
(** ** Snapshots *)

(** X11.  Two sequences of tasks with the same serialization are the same
    sequence: what [updateStorage] writes determines the array's tasks. *)
Theorem stringify_injective ts1 ts2 :
  JSON.stringify ts1 = JSON.stringify ts2 → ts1 = ts2.
Proof.
  intros Heq.
  pose proof (JSONFacts.parse_stringify ts1) as H1.
  rewrite Heq, JSONFacts.parse_stringify in H1. injection H1 as H1.
  pose proof (JSONFacts.mapM_asTask ts1) as H2.
  rewrite <- H1, JSONFacts.mapM_asTask in H2. by injection H2.
Qed.

Lemma stringify_injective_witness :
  [mkTask (js "A") true] = [mkTask (js "A") true].
Proof. apply (stringify_injective [mkTask (js "A") true]). reflexivity. Defined.

Lemma run_whitespace text :
  forallb JSON.isWS text = true →
  JSON.run text (JSON.PState [] JSON.MValue) = Some (JSON.PState [] JSON.MValue).
Proof.
  induction text as [|c text IH]; simpl; [done|].
  intros [Hc Htext]%andb_true_iff.
  unfold JSON.step, JSON.step0, JSON.startValue; simpl. rewrite Hc. by apply IH.
Qed.

(** X12.  The empty string under ['tasks'] loads as no tasks, but a stored
    string of one or more blanks (space, tab, line feed, carriage return) is
    truthy and is passed to [JSON.parse], which rejects it: [loadTasks]
    throws a SyntaxError and the script stops. *)
Theorem blank_snapshot_throws (dom : Dom) (storage : gmap jsstring jsstring) text :
  storage !! js "tasks" = Some text → text ≠ [] → forallb JSON.isWS text = true →
  loadTasks storage = Throw SyntaxError
  ∧ startup dom storage = Some (Throw SyntaxError).
Proof.
  intros Hstored Htext Hblank. unfold startup, loadTasks. rewrite Hstored.
  assert (truthy text = true) as -> by (by destruct text).
  unfold JSON.parse. by rewrite run_whitespace.
Qed.

Lemma blank_snapshot_throws_witness :
  loadTasks {[ js "tasks" := js " " ]} = Throw SyntaxError
  ∧ startup fullPage {[ js "tasks" := js " " ]} = Some (Throw SyntaxError).
Proof.
  apply (blank_snapshot_throws fullPage {[ js "tasks" := js " " ]} (js " "));
    [reflexivity|discriminate|reflexivity].
Defined.

(** X13.  A stored text that decodes to something other than an array
    ([null], a number, a string, a boolean, an object) passes [loadTasks]
    and stops the script at [tasks.forEach] with a TypeError, before any
    listener is registered. *)
Theorem stored_non_array_stops_script (dom : Dom) (storage : gmap jsstring jsstring)
    text v :
  storage !! js "tasks" = Some text → JSON.parse text = Some v →
  (∀ elements, v ≠ JArray elements) →
  loadTasks storage = Normal v ∧ startup dom storage = Some (Throw TypeError).
Proof.
  intros Hstored Hparse Hnot. unfold startup, loadTasks. rewrite Hstored.
  destruct text as [|c text]; [done|]. simpl. rewrite Hparse.
  split; [done|]. destruct v as [| | | |elements|]; try done.
  by destruct (Hnot elements).
Qed.

Lemma stored_non_array_stops_script_witness :
  loadTasks {[ js "tasks" := js "null" ]} = Normal JNull
  ∧ startup fullPage {[ js "tasks" := js "null" ]} = Some (Throw TypeError).
Proof.
  apply (stored_non_array_stops_script fullPage {[ js "tasks" := js "null" ]}
           (js "null") JNull); [reflexivity|reflexivity|discriminate].
Defined.



(** ** What the rows show *)

Section PageFacts.

Variable dom : Dom.
Variable canStore : policy.

Lemma pbind_eq {A B} (m : PM A) (f : A → PM B) p :
  (m ≫= f) p = match m p with
               | (Normal a, p') => f a p'
               | (Throw e, p') => (Throw e, p')
               end.
Proof. reflexivity. Qed.

Lemma liftM_eq {A} (m : M A) p o s' :
  m (script p) = (o, s') → liftM m p = (o, mkPage s' (children p)).
Proof. intros H. unfold liftM. by rewrite H. Qed.

Lemma pageRenderTask_eq task p :
  pageRenderTask dom task p
  = (Normal tt,
     mkPage
       (mkState (heap (script p)) (tasks (script p)) (localStorage (script p))
          (inputValue (script p))
          (if taskListElement dom then listItems (script p) ++ [task]
           else listItems (script p))
          (alerts (script p)) (setItemCalls (script p))
          (S (created (script p))))
       (if taskListElement dom
        then children p ++ [rowOf (script p) task] else children p)).
Proof.
  unfold pageRenderTask, rowOf. rewrite pbind_eq. cbn [pageGet].
  rewrite pbind_eq. erewrite liftM_eq by apply renderTask_eq.
  destruct (taskListElement dom); reflexivity.
Qed.

Lemma pageForEach_cons f x l p :
  pageForEach f (x :: l) p = match f x p with
                             | (Normal _, p') => pageForEach f l p'
                             | (Throw e, p') => (Throw e, p')
                             end.
Proof. reflexivity. Qed.

Lemma pageForEach_renderTask l p :
  pageForEach (pageRenderTask dom) l p
  = (Normal tt,
     mkPage
       (mkState (heap (script p)) (tasks (script p)) (localStorage (script p))
          (inputValue (script p))
          (if taskListElement dom then listItems (script p) ++ l
           else listItems (script p))
          (alerts (script p)) (setItemCalls (script p))
          (length l + created (script p)))
       (if taskListElement dom
        then children p ++ (rowOf (script p) <$> l) else children p)).
Proof.
  revert p. induction l as [|x l IH]; intros [s c].
  - destruct s; simpl. rewrite !app_nil_r. by destruct (taskListElement dom).
  - rewrite pageForEach_cons, pageRenderTask_eq, IH. cbn.
    replace (length l + S (created s))%nat with (S (length l + created s)) by lia.
    destruct (taskListElement dom); [rewrite <- !app_assoc|]; reflexivity.
Qed.

Lemma pageDeleteTask_unfold target p :
  pageDeleteTask dom canStore target p
  = let s := script p in
    let taskIndex := findIndex (sameTaskb (heap s !!! target)) (taskValues s) in
    if negb (taskIndex =? -1)%Z then
      let tasks' := splice1 taskIndex (tasks s) in
      let value := JSON.stringify ((fun r => heap s !!! r) <$> tasks') in
      let rendered := canStore (localStorage s) (js "tasks") value
                      && taskListElement dom in
      (setOutcome canStore (localStorage s) value,
       mkPage
         (mkState (heap s) tasks' (afterSet canStore (localStorage s) value)
            (inputValue s)
            (if rendered then tasks' else listItems s)
            (alerts s) (S (setItemCalls s))
            (if rendered then length tasks' + created s else created s))
         (if rendered then rowOf s <$> tasks' else children p))
    else (Normal tt, p).
Proof.
  unfold pageDeleteTask. rewrite pbind_eq. cbn [pageGet].
  fold (sameTaskb (heap (script p) !!! target)).
  cbv zeta. destruct (negb _); [|reflexivity].
  rewrite pbind_eq. erewrite liftM_eq by reflexivity.
  rewrite pbind_eq. erewrite liftM_eq by apply updateStorage_eq.
  cbv zeta. unfold setOutcome, afterSet, taskValues.
  cbn [script children heap tasks localStorage inputValue listItems alerts
       setItemCalls created].
  destruct (canStore _ _ _); [|reflexivity]. cbn [andb].
  destruct (taskListElement dom) eqn:E; [|reflexivity].
  unfold pageClearList.
  repeat first
    [ rewrite pbind_eq
    | erewrite liftM_eq by (by apply clearList_eq)
    | rewrite pageForEach_renderTask
    | progress cbn [pageGet setChildren script children put heap tasks localStorage
                    inputValue listItems alerts setItemCalls created] ].
  by rewrite E.
Qed.

Lemma pageSubmitTask_eq d p :
  formInput dom = true →
  pageSubmitTask dom canStore d p
  = match submitTask dom canStore d (script p) with
    | (o, s') =>
        (o, mkPage s'
              (if taskListElement dom
               then children p ++ [rowOf s' (length (heap (script p)))]
               else children p))
    end.
Proof.
  intros E. rewrite submitTask_eq by done. cbv zeta.
  unfold pageSubmitTask, writeInput. rewrite E.
  rewrite pbind_eq. erewrite liftM_eq by apply newTask_eq. cbv beta iota.
  rewrite pbind_eq. erewrite liftM_eq by apply addTask_eq. cbv beta iota.
  rewrite pbind_eq, pageRenderTask_eq. cbv beta iota.
  rewrite pbind_eq. erewrite liftM_eq by apply updateStorage_eq.
  cbv zeta beta iota. unfold setOutcome, afterSet, taskValues, rowOf.
  cbn [script children heap tasks localStorage inputValue listItems alerts
       setItemCalls created].
  rewrite lookup_total_new.
  destruct (canStore _ _ _); [|reflexivity].
  erewrite liftM_eq by reflexivity. reflexivity.
Qed.

Lemma rows_alloc s t (l : list ref) :
  Forall (fun r => (r < length (heap s))%nat) l →
  ∀ s', heap s' = heap s ++ [t] → rowOf s' <$> l = rowOf s <$> l.
Proof.
  intros Hl s' Hheap. apply list_fmap_ext. intros i r Hir.
  unfold rowOf. rewrite Hheap, lookup_total_alloc; [done|].
  by eapply (Forall_lookup_1 _ _ _ _ Hl).
Qed.

Lemma rows_toggle s (l : list ref) row task :
  NoDup l → l !! row = Some task → (task < length (heap s))%nat →
  ∀ s', heap s' = <[task := toggled (heap s !!! task)]> (heap s) →
  alter (fun li => mkRow (rowTask li) (textContent li) (negb (checked li))) row
        (rowOf s <$> l)
  = rowOf s' <$> l.
Proof.
  intros Hnd Hrow Htask s' Hheap. apply list_eq. intros j.
  rewrite !list_lookup_fmap.
  destruct (decide (j = row)) as [->|Hj].
  - rewrite list_lookup_alter_eq, list_lookup_fmap, Hrow. simpl. f_equal.
    unfold rowOf. rewrite Hheap, list_lookup_total_insert_eq by done. done.
  - rewrite list_lookup_alter_ne, list_lookup_fmap by done.
    destruct (l !! j) as [r|] eqn:Hr; [|done]. simpl. f_equal.
    unfold rowOf. rewrite Hheap, list_lookup_total_insert_ne; [done|].
    intros ->. apply Hj. eapply NoDup_lookup; eauto.
Qed.

(** One event on a page whose rows each show their task: the script's state
    changes as [dispatch] says, with the same outcome, and the rows each
    show their task again. *)
Lemma pageDispatch_in_step e p :
  consistent dom (script p) → inStep p →
  ∃ o s', dispatch dom canStore e (script p) = (o, s')
          ∧ pageDispatch dom canStore e p
            = (o, mkPage s' (rowOf s' <$> listItems s')).
Proof.
  destruct p as [s c]. unfold inStep. cbn [script children].
  intros (Hvalid & Hnd & Hrows) ->. destruct e as [text| |row|row].
  - rewrite dispatch_Input. returns.
    unfold pageDispatch. erewrite liftM_eq by apply dispatch_Input.
    by destruct (formInput dom).
  - rewrite dispatch_Submit. unfold pageDispatch.
    destruct (taskForm dom); [|by returns].
    rewrite onSubmit_eq. unfold pageOnSubmit. rewrite pbind_eq.
    erewrite liftM_eq by reflexivity. cbn [script children].
    destruct (formInput dom) eqn:Hinput; cbn [andb].
    + destruct (truthy (inputValue s)).
      * rewrite pageSubmitTask_eq by done. cbn [script children].
        rewrite submitTask_eq by done. cbv zeta. returns.
        do 2 f_equal. cbn [listItems].
        destruct (taskListElement dom); [|by rewrite Hrows].
        destruct Hrows as (_ & _ & Hvalid').
        rewrite (fmap_app (rowOf _)). f_equal. symmetry.
        eapply rows_alloc; [exact Hvalid'|reflexivity].
      * erewrite liftM_eq by apply alert_eq. by returns.
    + erewrite liftM_eq by apply alert_eq. by returns.
  - rewrite dispatch_Change. unfold pageDispatch. rewrite pbind_eq. cbn [pageGet children].
    rewrite list_lookup_fmap. destruct (listItems s !! row) as [task|] eqn:Hrow;
      [|by returns].
    rewrite onChange_eq. cbv zeta. returns. cbn [fmap option_fmap option_map].
    rewrite pbind_eq. unfold flipCheckbox, setChildren. cbn [script children rowOf rowTask].
    erewrite liftM_eq by apply onChange_eq. cbv zeta. cbn [children listItems].
    do 2 f_equal.
    destruct (taskListElement dom); [|by rewrite Hrows in Hrow].
    destruct Hrows as (_ & Hnd' & Hvalid').
    eapply rows_toggle; [done|exact Hrow| |reflexivity].
    by eapply (Forall_lookup_1 _ _ _ _ Hvalid').
  - rewrite dispatch_Click. unfold pageDispatch. rewrite pbind_eq. cbn [pageGet children].
    rewrite list_lookup_fmap. destruct (listItems s !! row) as [task|] eqn:Hrow;
      [|by returns].
    cbn [fmap option_fmap option_map]. change (rowTask (rowOf s task)) with task.
    rewrite pageDeleteTask_unfold. cbn [script children].
    rewrite deleteTask_unfold. cbv zeta.
    destruct (negb _); [|by returns].
    returns. do 2 f_equal. by destruct (_ && _).
Qed.

Lemma pageStartup_in_step storage p0 :
  pageStartup dom storage = Some (Normal p0) →
  startup dom storage = Some (Normal (script p0)) ∧ inStep p0.
Proof.
  unfold pageStartup, startup. destruct (loadTasks storage) as [v|e]; [|done].
  destruct v as [| | | |elements|]; try done.
  destruct (mapM asTask elements) as [ts|]; [|done].
  rewrite pageForEach_renderTask, forEach_renderTask. intros [= <-].
  split; [done|]. unfold inStep. cbn. by destruct (taskListElement dom).
Qed.

Lemma pageRun_in_step es p :
  consistent dom (script p) → inStep p →
  run dom canStore es (script p)
  = ((pageRun dom canStore es p).1, script (pageRun dom canStore es p).2)
  ∧ inStep (pageRun dom canStore es p).2.
Proof.
  revert p. induction es as [|e es IH]; intros p Hs Hp; [done|].
  destruct (pageDispatch_in_step e p Hs Hp) as (o & s1 & Hstep & Hpage).
  pose proof (consistent_dispatch dom canStore e (script p) Hs) as Hs1.
  rewrite Hstep in Hs1. cbn [snd] in Hs1.
  destruct (IH (mkPage s1 (rowOf s1 <$> listItems s1)) Hs1 eq_refl) as [Hrun Hin].
  cbn [script] in Hrun.
  rewrite run_cons_eq, Hstep. cbn [pageRun]. rewrite Hpage.
  destruct o as [[]|x].
  - done.
  - rewrite Hrun. by destruct (pageRun dom canStore es _).
Qed.

End PageFacts.

(** X14.  What the list shows.  On the page started from any storage, after
    any events, the script's state and the exceptions are the ones [run]
    gives, and every row shows the task it holds as that task now is: the
    row's text is the task's description and its checkbox is ticked exactly
    when the task is completed.  After a run in which no listener threw, the
    rows, read in order, are the sequence of the array. *)
Theorem rows_show_their_tasks (dom : Dom) (canStore : policy) storage p0 es :
  pageStartup dom storage = Some (Normal p0) →
  let errors := (pageRun dom canStore es p0).1 in
  let p := (pageRun dom canStore es p0).2 in
  run dom canStore es (script p0) = (errors, script p)
  ∧ children p
    = (fun r => mkRow r (description (heap (script p) !!! r))
                        (isCompleted (heap (script p) !!! r)))
        <$> listItems (script p)
  ∧ (errors = [] → taskListElement dom = true →
     (fun li => mkTask (textContent li) (checked li)) <$> children p
     = taskValues (script p)).
Proof.
  intros [Hstart Hp0]%pageStartup_in_step. cbv zeta.
  destruct (consistent_startup dom storage _ Hstart) as [Hs0 Hcur0].
  destruct (pageRun_in_step dom canStore es p0 Hs0 Hp0) as [Hrun Hp].
  split; [done|]. split; [exact Hp|].
  intros Herr Hlist. rewrite Herr in Hrun.
  pose proof (current_run dom canStore es _ _ Hcur0 Hrun) as Hcur.
  unfold rowsCurrent in Hcur. rewrite Hlist in Hcur.
  rewrite Hp, Hcur. unfold taskValues.
  rewrite <- list_fmap_compose. apply list_fmap_ext. intros i r _. simpl.
  by destruct (heap (script (pageRun dom canStore es p0).2) !!! r).
Qed.

Lemma rows_show_their_tasks_witness :
  let es := [Input (js "Buy milk"); Submit; Change 0] in
  let errors := (pageRun fullPage smallStore es (mkPage freshPage [])).1 in
  let p := (pageRun fullPage smallStore es (mkPage freshPage [])).2 in
  run fullPage smallStore es freshPage = (errors, script p)
  ∧ children p
    = (fun r => mkRow r (description (heap (script p) !!! r))
                        (isCompleted (heap (script p) !!! r)))
        <$> listItems (script p)
  ∧ (errors = [] → taskListElement fullPage = true →
     (fun li => mkTask (textContent li) (checked li)) <$> children p
     = taskValues (script p)).
Proof.
  apply (rows_show_their_tasks fullPage smallStore ∅ (mkPage freshPage [])
           [Input (js "Buy milk"); Submit; Change 0]).
  reflexivity.
Defined.

(** ** Ticking two rows *)

(** X15.  In every state the page can reach, ticks on two different rows can
    be done in either order.  The two runs end with the same task objects,
    the same array, the same rows, the same field, the same messages and the
    same number of calls of [setItem]; when no call of [setItem] throws in
    either run, they end in the same state, storage included. *)
Theorem ticks_on_two_rows_commute (dom : Dom) (canStore : policy) s i j :
  reachable dom canStore s → i ≠ j →
  let a := run dom canStore [Change i; Change j] s in
  let b := run dom canStore [Change j; Change i] s in
  heap a.2 = heap b.2
  ∧ tasks a.2 = tasks b.2
  ∧ listItems a.2 = listItems b.2
  ∧ inputValue a.2 = inputValue b.2
  ∧ alerts a.2 = alerts b.2
  ∧ setItemCalls a.2 = setItemCalls b.2
  ∧ created a.2 = created b.2
  ∧ (a.1 = [] → b.1 = [] → a = b).
Proof.
  intros Hs%reachable_consistent Hij. cbv zeta.
  rewrite !run_snd. rewrite !run_cons_eq. cbn [run].
  rewrite !dispatch_Change.
  destruct (listItems s !! i) as [ti|] eqn:Hi, (listItems s !! j) as [tj|] eqn:Hj;
    rewrite ?onChange_eq; cbv beta iota zeta; cbn [snd];
    rewrite ?dispatch_Change; cbn [listItems]; rewrite ?Hi, ?Hj;
    rewrite ?onChange_eq; cbv beta iota zeta; cbn [snd];
    try (by repeat split).
  assert (ti ≠ tj) as Hne.
  { intros ->. apply Hij. destruct Hs as (_ & _ & Hrows).
    destruct (taskListElement dom); [|by rewrite Hrows in Hi].
    destruct Hrows as (_ & Hnd & _). eapply NoDup_lookup; eauto. }
  cbn [heap tasks localStorage inputValue listItems alerts setItemCalls created].
  rewrite !list_lookup_total_insert_ne by done.
  rewrite (list_insert_insert_ne _ tj ti) by done.
  repeat (split; [reflexivity|]).
  unfold setOutcome, afterSet.
  repeat match goal with
         | |- context [canStore ?m ?k ?v] =>
             let E := fresh "E" in destruct (canStore m k v) eqn:E
         end; cbn [fst]; try done.
  intros _ _. by rewrite !insert_insert_eq.
Qed.

Lemma ticks_on_two_rows_commute_witness :
  let s := mkState [mkTask (js "A") false; mkTask (js "B") false] [0%nat; 1%nat]
             {[ keyTasks := jsq "[{'description':'A','isCompleted':false},{'description':'B','isCompleted':false}]" ]}
             [] [0%nat; 1%nat] [] 2 2 in
  let a := run fullPage unlimited [Change 0; Change 1] s in
  let b := run fullPage unlimited [Change 1; Change 0] s in
  heap a.2 = heap b.2
  ∧ tasks a.2 = tasks b.2
  ∧ listItems a.2 = listItems b.2
  ∧ inputValue a.2 = inputValue b.2
  ∧ alerts a.2 = alerts b.2
  ∧ setItemCalls a.2 = setItemCalls b.2
  ∧ created a.2 = created b.2
  ∧ (a.1 = [] → b.1 = [] → a = b).
Proof.
  apply (ticks_on_two_rows_commute fullPage unlimited); [|done].
  apply (run_reachable fullPage unlimited ∅ freshPage
           [Input (js "A"); Submit; Input (js "B"); Submit]).
  - reflexivity.
  - vm_compute. reflexivity.
Defined.
